(** * IAR build extension: utilities and file-watcher reconciliation

    A shallow embedding of [src/utils/utils.ts] (ListUtils, BackupUtils,
    RegexUtils) and of the watcher callbacks of [src/extension/main.ts]
    (setupFileWatchers), with the properties the specification states
    about them.

    JavaScript strings are sequences of UTF-16 code units; a regular
    expression without the [u] flag works on code units.  Strings are
    therefore lists of [N]. *)

From Stdlib Require Import Ascii String DecimalString NArith ZArith Arith Bool Lia.
From Stdlib Require Import Sorted Permutation List.
Import ListNotations.

Set Implicit Arguments.

(* ===================================================================== *)
(** * JavaScript strings *)
(* ===================================================================== *)

Module JsString.

Definition t := list N.

(** An ASCII literal as a JavaScript string. *)
Fixpoint js (s : string) : t :=
  match s with
  | EmptyString => []
  | String a s' => N_of_ascii a :: js s'
  end.

Fixpoint eqb (a b : t) : bool :=
  match a, b with
  | [], [] => true
  | x :: a', y :: b' => N.eqb x y && eqb a' b'
  | _, _ => false
  end.

(** [Array.prototype.includes] on an array of strings. *)
Definition includes (l : list t) (x : t) : bool := existsb (eqb x) l.

(** [String.prototype.startsWith]. *)
Fixpoint startsWith (s p : t) : bool :=
  match p, s with
  | [], _ => true
  | y :: p', x :: s' => N.eqb x y && startsWith s' p'
  | _ :: _, [] => false
  end.

(** Decimal rendering of a length, as template literals do. *)
Definition of_nat (n : nat) : t :=
  js (NilEmpty.string_of_uint (Nat.to_uint n)).

(** [s] occurs literally in [u]. *)
Definition occurs_in (s u : t) : Prop :=
  exists pre post, u = pre ++ s ++ post.

End JsString.

Abbreviation jsstring := JsString.t.
Abbreviation js := JsString.js.

(** Code units the source names. *)
Module Cu.
Definition slash : N := 47.       (* / *)
Definition backslash : N := 92.
Definition dot : N := 46.
Definition star : N := 42.
Definition plus : N := 43.
Definition question : N := 63.
Definition caret : N := 94.
Definition dollar : N := 36.
Definition lparen : N := 40.
Definition rparen : N := 41.
Definition bar : N := 124.
Definition letter_d : N := 100.
Definition letter_s : N := 115.
End Cu.

(* ===================================================================== *)
(** * Regular expressions (ECMAScript, no flags) *)
(* ===================================================================== *)

Module RegExp.

Local Open Scope N_scope.

(** The part of the pattern language the program uses.  [r+] is
    [Seq r (Star r)] and [r?] is [Alt r Empty]. *)
Inductive Regex : Type :=
| Empty                       (* the empty alternative *)
| Char (c : N)                (* a pattern character or an identity escape *)
| Dot                         (* any code unit but a line terminator *)
| Digit                       (* \d *)
| Space                       (* \s *)
| Bol                         (* ^ *)
| Eol                         (* $ *)
| Seq (r1 r2 : Regex)
| Alt (r1 r2 : Regex)
| Star (r : Regex)
| Group (r : Regex).          (* a parenthesised disjunction *)

Definition Plus (r : Regex) : Regex := Seq r (Star r).
Definition Opt (r : Regex) : Regex := Alt r Empty.

Definition isLineTerminator (c : N) : bool :=
  (c =? 10) || (c =? 13) || (c =? 8232) || (c =? 8233).

Definition isDigit (c : N) : bool := (48 <=? c) && (c <=? 57).

(** WhiteSpace and LineTerminator of the ECMAScript grammar. *)
Definition isSpace (c : N) : bool :=
  (c =? 9) || (c =? 10) || (c =? 11) || (c =? 12) || (c =? 13) ||
  (c =? 32) || (c =? 160) || (c =? 5760) ||
  ((8192 <=? c) && (c <=? 8202)) ||
  (c =? 8232) || (c =? 8233) || (c =? 8239) || (c =? 8287) ||
  (c =? 12288) || (c =? 65279).

(** One code unit against a predicate. *)
Definition one (p : N -> bool) (i : nat) (s : jsstring)
           (k : nat -> jsstring -> bool) : bool :=
  match s with
  | c :: s' => p c && k (S i) s'
  | [] => false
  end.

(** The matcher of the language specification, in continuation style:
    [rmatch r i s k] tries [r] at offset [i], where [s] is the input
    from [i] on, and hands every end position to [k].  An iteration of
    a star that consumes nothing is rejected, as the specification
    does; so [length s] iterations are enough. *)
Fixpoint rmatch (r : Regex) (i : nat) (s : jsstring)
         (k : nat -> jsstring -> bool) {struct r} : bool :=
  match r with
  | Empty => k i s
  | Char c => one (N.eqb c) i s k
  | Dot => one (fun c => negb (isLineTerminator c)) i s k
  | Digit => one isDigit i s k
  | Space => one isSpace i s k
  | Bol => Nat.eqb i 0 && k i s
  | Eol => match s with [] => k i s | _ :: _ => false end
  | Seq r1 r2 => rmatch r1 i s (fun j u => rmatch r2 j u k)
  | Alt r1 r2 => rmatch r1 i s k || rmatch r2 i s k
  | Star r1 =>
      (fix loop (fuel : nat) (i : nat) (s : jsstring) {struct fuel} : bool :=
         match fuel with
         | O => k i s
         | S fuel' =>
             rmatch r1 i s
               (fun j u => Nat.ltb (length u) (length s) && loop fuel' j u)
             || k i s
         end) (S (length s)) i s
  | Group r1 => rmatch r1 i s k
  end.

(** Try every start offset from [i] on. *)
Fixpoint search (r : Regex) (i : nat) (s : jsstring) : bool :=
  rmatch r i s (fun _ _ => true) ||
  match s with
  | [] => false
  | _ :: s' => search r (S i) s'
  end.

(** [RegExp.prototype.test], and the truth value of
    [String.prototype.match], for a regular expression without the
    global flag. *)
Definition test (r : Regex) (s : jsstring) : bool := search r 0 s.

End RegExp.

(* ===================================================================== *)
(** * Compiling a pattern string: [new RegExp(pattern)] *)
(* ===================================================================== *)

Module Pattern.

Import RegExp.
Local Open Scope N_scope.

(** SyntaxCharacter of the ECMAScript pattern grammar. *)
Definition isSyntaxCharacter (c : N) : bool :=
  existsb (N.eqb c) (js "^$\.*+?()[]{}|").

(** What follows a backslash: [\d], [\s], or an escaped syntax
    character, which stands for itself. *)
Definition atomEscape (e : N) : option Regex :=
  if e =? Cu.letter_d then Some Digit
  else if e =? Cu.letter_s then Some Space
  else if isSyntaxCharacter e then Some (Char e)
  else None.

(** A disjunction under construction: the alternatives already closed
    by a bar and the terms of the current one, both latest first, and
    whether the latest term is an atom a quantifier may follow. *)
Record Frame : Type := {
  alts : list Regex;
  terms : list Regex;
  rep : bool
}.

Definition empty_frame : Frame := {| alts := []; terms := []; rep := false |}.

Definition push_atom (a : Regex) (f : Frame) : Frame :=
  {| alts := alts f; terms := a :: terms f; rep := true |}.

Definition push_assertion (a : Regex) (f : Frame) : Frame :=
  {| alts := alts f; terms := a :: terms f; rep := false |}.

Definition quantify (q : Regex -> Regex) (f : Frame) : option Frame :=
  match rep f, terms f with
  | true, a :: ts => Some {| alts := alts f; terms := q a :: ts; rep := false |}
  | _, _ => None
  end.

(** The terms of an alternative, given latest first, in sequence. *)
Definition seq_of (rev_terms : list Regex) : Regex :=
  match rev_terms with
  | [] => Empty
  | t :: ts => fold_left (fun acc x => Seq x acc) ts t
  end.

Definition next_alt (f : Frame) : Frame :=
  {| alts := seq_of (terms f) :: alts f; terms := []; rep := false |}.

Definition close (f : Frame) : Regex :=
  fold_left (fun acc a => Alt a acc) (alts f) (seq_of (terms f)).

(** One pass over the pattern with a stack of open groups.  [None] is
    a pattern outside the modelled part of the grammar or a syntax
    error: character classes, counted repetition, lazy quantifiers,
    group specifiers and the other escapes are not modelled. *)
Fixpoint parse (stack : list Frame) (cur : Frame) (p : jsstring)
         {struct p} : option Regex :=
  match p with
  | [] => match stack with [] => Some (close cur) | _ :: _ => None end
  | c :: p' =>
      if negb (isSyntaxCharacter c) then parse stack (push_atom (Char c) cur) p'
      else if c =? Cu.backslash then
        match p' with
        | [] => None
        | e :: p'' =>
            match atomEscape e with
            | Some a => parse stack (push_atom a cur) p''
            | None => None
            end
        end
      else if c =? Cu.dot then parse stack (push_atom Dot cur) p'
      else if c =? Cu.caret then parse stack (push_assertion Bol cur) p'
      else if c =? Cu.dollar then parse stack (push_assertion Eol cur) p'
      else if c =? Cu.star then
        match quantify Star cur with Some f => parse stack f p' | None => None end
      else if c =? Cu.plus then
        match quantify Plus cur with Some f => parse stack f p' | None => None end
      else if c =? Cu.question then
        match quantify Opt cur with Some f => parse stack f p' | None => None end
      else if c =? Cu.lparen then parse (cur :: stack) empty_frame p'
      else if c =? Cu.rparen then
        match stack with
        | [] => None
        | f :: st => parse st (push_atom (Group (close cur)) f) p'
        end
      else if c =? Cu.bar then parse stack (next_alt cur) p'
      else None
  end.

Definition compile (p : jsstring) : option Regex := parse [] empty_frame p.

(** Terms in sequence, first term first, as [compile] nests them. *)
Definition seqs (ts : list Regex) : Regex := seq_of (rev ts).

(** The terms of a literal text. *)
Definition lit (s : jsstring) : list Regex := map Char s.

End Pattern.

(* ===================================================================== *)
(** * Node's [path] module (posix flavour: the separator is the slash) *)
(* ===================================================================== *)

Module Path.

Local Open Scope N_scope.

Definition isSep (c : N) : bool := c =? Cu.slash.

Fixpoint dropWhile (p : N -> bool) (s : jsstring) : jsstring :=
  match s with
  | c :: s' => if p c then dropWhile p s' else s
  | [] => []
  end.

Fixpoint takeWhile (p : N -> bool) (s : jsstring) : jsstring :=
  match s with
  | c :: s' => if p c then c :: takeWhile p s' else []
  | [] => []
  end.

(** [Path.basename(path)]: the last portion of the path; trailing
    separators are ignored. *)
Definition basename (path : jsstring) : jsstring :=
  rev (takeWhile (fun c => negb (isSep c)) (dropWhile isSep (rev path))).

(** [Path.basename(path, suffix)], for a path that does not end in a
    separator: the suffix is removed from the last portion when that
    portion ends with it and is longer than it. *)
Definition basename_ext (path suffix : jsstring) : jsstring :=
  let b := basename path in
  if JsString.eqb suffix path then []
  else if JsString.startsWith (rev b) (rev suffix)
          && Nat.ltb (length suffix) (length b)
  then firstn (length b - length suffix) b
  else b.

(** [Path.extname(path)]: the last portion from its last dot on; empty
    when the portion has no dot, when its last dot is its first
    character, and when the portion is two dots. *)
Definition extname (path : jsstring) : jsstring :=
  let b := basename path in
  let tail := takeWhile (fun c => negb (c =? Cu.dot)) (rev b) in
  if Nat.eqb (length tail) (length b) then []
  else
    let stem := (length b - S (length tail))%nat in
    if Nat.eqb stem 0 then []
    else if JsString.eqb b (js "..") then []
    else skipn stem b.

End Path.

(* ===================================================================== *)
(** * utils.ts: RegexUtils *)
(* ===================================================================== *)

Module RegexUtils.

Local Open Scope N_scope.

(** The class [[.*+?^${}()|[\]\\]] of the source. *)
Definition special (c : N) : bool :=
  existsb (N.eqb c) (js ".*+?^${}()|[]\").

(** [str.replace(/[.*+?^${}()|[\]\\]/g, "\\$&")]: every code unit of
    the class is replaced by a backslash followed by itself. *)
Definition escape (str : jsstring) : jsstring :=
  flat_map (fun c => if special c then [Cu.backslash; c] else [c]) str.

End RegexUtils.

(* ===================================================================== *)
(** * utils.ts: BackupUtils, the file-name predicate *)
(* ===================================================================== *)

Module BackupUtils.

Import RegExp Pattern.
Local Open Scope N_scope.

(** The seven code units U+306E U+30D0 U+30C3 U+30AF U+30A2 U+30C3
    U+30D7 of the Japanese phrase in the source. *)
Definition noBackup : jsstring :=
  [0x306E; 0x30D0; 0x30C3; 0x30AF; 0x30A2; 0x30C3; 0x30D7].

(** [/^Backup\s+(\(\d+\)\s+)?of.*\.ewp$/] *)
Definition isBackupEng : Regex :=
  seqs ([Bol] ++ lit (js "Backup") ++
        [Plus Space;
         Opt (Group (seqs [Char Cu.lparen; Plus Digit; Char Cu.rparen; Plus Space]))] ++
        lit (js "of") ++ [Star Dot] ++ lit (js ".ewp") ++ [Eol]).

(** [/^.*\s+<noBackup>(\s+\(\d+\))?\.ewp$/] *)
Definition isBackupJpn : Regex :=
  seqs ([Bol; Star Dot; Plus Space] ++ lit noBackup ++
        [Opt (Group (seqs [Plus Space; Char Cu.lparen; Plus Digit; Char Cu.rparen]))] ++
        lit (js ".ewp") ++ [Eol]).

Definition isBackupFile (project : jsstring) : bool :=
  test isBackupEng (Path.basename project) ||
  test isBackupJpn (Path.basename project).

End BackupUtils.


(* ===================================================================== *)
(** * utils.ts: ListUtils *)
(* ===================================================================== *)

(** [Map<string, T>]: the entries in insertion order.  Setting a key
    that is present replaces its value and keeps its place. *)
Module JsMap.

Definition t (T : Type) : Type := list (jsstring * T).

Fixpoint set {T : Type} (k : jsstring) (v : T) (m : t T) : t T :=
  match m with
  | [] => [(k, v)]
  | (k', v') :: m' =>
      if JsString.eqb k' k then (k', v) :: m' else (k', v') :: set k v m'
  end.

Definition keys {T : Type} (m : t T) : list jsstring := map fst m.

Definition values {T : Type} (m : t T) : list T := map snd m.

End JsMap.

Module ListUtils.

Section MergeUnique.

Variable T : Type.
Variable getKey : T -> jsstring.

(** The two nested [forEach] loops. *)
Definition collect (lists : list (list T)) (result : JsMap.t T) : JsMap.t T :=
  fold_left
    (fun result list =>
       fold_left (fun result item => JsMap.set (getKey item) item result)
                 list result)
    lists result.

Definition mergeUnique (lists : list (list T)) : list T :=
  JsMap.values (collect lists []).

End MergeUnique.

End ListUtils.

(* ===================================================================== *)
(** * utils.ts: LanguageUtils *)
(* ===================================================================== *)

Module LanguageUtils.

(** [type Language = "c" | "cpp"] *)
Inductive Language : Type := c | cpp.

Definition cExtensions : list jsstring := [js ".c"; js ".h"].

Definition cppExtensions : list jsstring :=
  [js ".cpp"; js ".hpp"; js ".cxx"; js ".hxx"; js ".cc"; js ".hh"].

(** [None] is [undefined]. *)
Definition determineLanguage (filePath : jsstring) : option Language :=
  let extension := Path.extname filePath in
  if JsString.includes cExtensions extension then Some c
  else if JsString.includes cppExtensions extension then Some cpp
  else None.

End LanguageUtils.

(* ===================================================================== *)
(** * utils.ts: ProcessUtils *)
(* ===================================================================== *)

Module ProcessUtils.

(** A promise: pending, or settled once and for all. *)
Inductive Promise (T E : Type) : Type :=
| Pending
| Resolved (v : T)
| Failed (e : E).

Arguments Pending {T E}.
Arguments Resolved {T E} v.
Arguments Failed {T E} e.

(** The [resolve] and [reject] of [new Promise]: without effect on a
    settled promise. *)
Definition resolve {T E : Type} (v : T) (p : Promise T E) : Promise T E :=
  match p with Pending => Resolved v | _ => p end.

Definition reject {T E : Type} (e : E) (p : Promise T E) : Promise T E :=
  match p with Pending => Failed e | _ => p end.

(** What a child process emits: ["exit"] with its code, [null] when a
    signal ended it, and ["error"]. *)
Inductive ProcessEvent (X : Type) : Type :=
| Exit (code : option Z)
| Error (e : X).

Arguments Exit {X} code.
Arguments Error {X} e.

(** What [waitForExit] rejects with: what the process emitted, or the
    [Error] it makes itself. *)
Inductive Rejection (X : Type) : Type :=
| Emitted (e : X)
| NewError (message : jsstring).

Arguments Emitted {X} e.
Arguments NewError {X} message.

(** A number or [null] appended to a string. *)
Definition codeToString (code : option Z) : jsstring :=
  match code with
  | Some z => js (NilEmpty.string_of_int (Z.to_int z))
  | None => js "null"
  end.

Section Wait.

Variable X : Type.

(** The two listeners, applied to the events of the process in order. *)
Definition listen (p : Promise (option Z) X) (ev : ProcessEvent X)
  : Promise (option Z) X :=
  match ev with
  | Exit code => resolve code p
  | Error e => reject e p
  end.

(** The promise of [waitForExitCode(process)] after the process has
    emitted [events]. *)
Definition waitForExitCode (events : list (ProcessEvent X))
  : Promise (option Z) X :=
  fold_left listen events Pending.

(** The promise of [waitForExit(process)] after the same events. *)
Definition waitForExit (events : list (ProcessEvent X))
  : Promise unit (Rejection X) :=
  match waitForExitCode events with
  | Pending => Pending
  | Failed e => Failed (Emitted e)
  | Resolved code =>
      match code with
      | Some 0%Z => Resolved tt
      | _ => Failed (NewError (js "Process exited with code: " ++ codeToString code))
      end
  end.

End Wait.

End ProcessUtils.

(* ===================================================================== *)
(** * Promises and the directory of a project *)
(* ===================================================================== *)

(** What a promise of this module can reject with: a [SyntaxError] of
    [new RegExp], a failed file-system call with its error code, or
    whatever the task itself rejects with. *)
Inductive Failure (X : Type) : Type :=
| SyntaxError
| Errno (code : jsstring)
| Thrown (x : X).

Arguments SyntaxError {X}.
Arguments Errno {X} code.
Arguments Thrown {X} x.

Inductive Settled (X T : Type) : Type :=
| Fulfilled (v : T)
| Rejected (e : Failure X).

Arguments Fulfilled {X T} v.
Arguments Rejected {X T} e.

(** The directory [Path.dirname(project)] as the file-system calls of
    [doWithBackupCheck] see it: its entries, whether listing it fails,
    and which entries cannot be removed.  [Path.join(projectDir, file)]
    names the entry [file] of this directory. *)
Module Fs.

Record Dir : Type := {
  entries : list jsstring;
  readdirError : option jsstring;
  rmError : jsstring -> option jsstring
}.

(** [FsPromises.readdir(projectDir)] *)
Definition readdir (d : Dir) : list jsstring + jsstring :=
  match readdirError d with
  | Some code => inr code
  | None => inl (entries d)
  end.

Definition remove (file : jsstring) (l : list jsstring) : list jsstring :=
  filter (fun f => negb (JsString.eqb f file)) l.

(** [FsPromises.rm(Path.join(projectDir, file))]: without [force], a
    missing entry is an error. *)
Definition rm (file : jsstring) (d : Dir) : option jsstring * Dir :=
  match rmError d file with
  | Some code => (Some code, d)
  | None =>
      if JsString.includes (entries d) file
      then (None, {| entries := remove file (entries d);
                     readdirError := readdirError d;
                     rmError := rmError d |})
      else (Some (js "ENOENT"), d)
  end.

End Fs.

(* ===================================================================== *)
(** * utils.ts: BackupUtils.doWithBackupCheck *)
(* ===================================================================== *)

Module BackupGuard.

Import RegExp Pattern Fs.

(** [RegexUtils.escape(Path.basename(project, ".ewp"))] *)
Definition projectNameRegex (project : jsstring) : jsstring :=
  RegexUtils.escape (Path.basename_ext project (js ".ewp")).

(** [new RegExp(`Backup\\s+(\\(\\d+\\))?\\s*of ${projectNameRegex}\\.ew`)] *)
Definition backupRegexEng (project : jsstring) : option Regex :=
  compile (js "Backup\s+(\(\d+\))?\s*of " ++ projectNameRegex project ++ js "\.ew").

(** [new RegExp(`${projectNameRegex}\\s+<noBackup>(\\s+\\(\\d+\\))?\\.ew`)] *)
Definition backupRegexJpn (project : jsstring) : option Regex :=
  compile (projectNameRegex project ++ js "\s+" ++ BackupUtils.noBackup ++
           js "(\s+\(\d+\))?\.ew").

(** [file => file.match(backupRegexEng) || file.match(backupRegexJpn)] *)
Definition isBackup (eng jpn : Regex) (file : jsstring) : bool :=
  test eng file || test jpn file.

(** What happens, in order: a listing of the directory completes, the
    task runs, the promise handed to the caller settles, a removal
    completes. *)
Inductive Event : Type :=
| Readdir (ok : bool)
| TaskRun
| Returned
| Rm (file : jsstring) (ok : bool).

Section DoWithBackupCheck.

Variable X : Type.
Variable T : Type.

(** A task: what it does to the directory and how its promise settles. *)
Definition Task : Type := Dir -> Settled X T * Dir.

(** One run of [doWithBackupCheck]: how the returned promise settles,
    how the promise of [taskPromise.finally(...)], which nobody holds,
    settles, the directory at the end, and the events in order. *)
Record Run : Type := {
  returned : Settled X T;
  detached : option (Settled X T);
  dirAfter : Dir;
  events : list Event
}.

(** [Promise.allSettled(newBackupFiles.map(file => FsPromises.rm(...)))]:
    every removal is attempted, failures are dropped. *)
Fixpoint rmAll (files : list jsstring) (d : Dir) : Dir * list Event :=
  match files with
  | [] => (d, [])
  | file :: rest =>
      let (err, d') := rm file d in
      let (d'', evs) := rmAll rest d' in
      (d'', Rm file (match err with None => true | Some _ => false end) :: evs)
  end.

(** The callback given to [taskPromise.finally]. *)
Definition cleanup (eng jpn : Regex) (originalBackupFiles : list jsstring)
           (d : Dir) : option jsstring * Dir * list Event :=
  match readdir d with
  | inr code => (Some code, d, [Readdir false])
  | inl files =>
      let backupFilesAfterExit := filter (isBackup eng jpn) files in
      if negb (Nat.eqb (length originalBackupFiles) (length backupFilesAfterExit))
      then
        let newBackupFiles :=
          filter (fun backupFile =>
                    negb (JsString.includes originalBackupFiles backupFile))
                 backupFilesAfterExit in
        let (d', evs) := rmAll newBackupFiles d in
        (None, d', Readdir true :: evs)
      else (None, d, [Readdir true])
  end.

(** The caller's promise adopts [taskPromise]; it settles in the
    microtasks that follow the task's settling, before the listing that
    the callback awaits can complete. *)
Definition doWithBackupCheck (project : jsstring) (task : Task) (d : Dir) : Run :=
  match backupRegexEng project, backupRegexJpn project with
  | Some eng, Some jpn =>
      match readdir d with
      | inr code =>
          {| returned := Rejected (Errno code); detached := None;
             dirAfter := d; events := [Readdir false; Returned] |}
      | inl files =>
          let originalBackupFiles := filter (isBackup eng jpn) files in
          let (taskPromise, d1) := task d in
          let '(err, d2, evs) := cleanup eng jpn originalBackupFiles d1 in
          {| returned := taskPromise;
             detached := Some (match err with
                               | Some code => Rejected (Errno code)
                               | None => taskPromise
                               end);
             dirAfter := d2;
             events := Readdir true :: TaskRun :: Returned :: evs |}
      end
  | _, _ =>
      {| returned := Rejected SyntaxError; detached := None;
         dirAfter := d; events := [Returned] |}
  end.

(** The files of a listing that are backups of [project]. *)
Definition backupsOf (project : jsstring) (files : list jsstring) : list jsstring :=
  match backupRegexEng project, backupRegexJpn project with
  | Some eng, Some jpn => filter (isBackup eng jpn) files
  | _, _ => []
  end.

End DoWithBackupCheck.

End BackupGuard.

(* ===================================================================== *)
(** * main.ts: the watcher callbacks of setupFileWatchers *)
(* ===================================================================== *)

Module Main.

(** How a callback ends: normally, or with a thrown value (for an
    [async] callback: a rejected promise).  Thrown values are kept as
    their rendering [`${e}`]. *)
Inductive Completion (A : Type) : Type :=
| Normal (a : A)
| Throw (e : jsstring).

Arguments Normal {A} a.
Arguments Throw {A} e.

(** [Array.prototype.sort(compare)]: stable; [a] stays before [b] unless
    [compare(a, b) > 0]. *)
Section Sort.

Variable A : Type.
Variable compare : A -> A -> Z.

Fixpoint insert (x : A) (l : list A) : list A :=
  match l with
  | [] => [x]
  | y :: l' => if (compare x y <=? 0)%Z then x :: l else y :: insert x l'
  end.

Definition sort (l : list A) : list A := fold_right insert [] l.

End Sort.

(** The collaborators that are not in this repository's sources: the
    fields of a parsed workspace or project file with its display name
    and its path, [JSON.stringify] of an array of them,
    [String.prototype.localeCompare], [OsUtils.pathsEqual],
    [EwWorkspace.equal], [Project.equal], and the projects-to-exclude
    setting. *)
Class Host : Type := {
  Content : Type;
  name : Content -> jsstring;
  path : Content -> jsstring;
  stringify : list Content -> jsstring;
  localeCompare : jsstring -> jsstring -> Z;
  pathsEqual : jsstring -> jsstring -> bool;
  workspaceEqual : Content -> Content -> bool;
  projectEqual : Content -> Content -> bool;
  excluded : jsstring -> bool
}.

Section Reconciler.

Context {host : Host}.

(** An object: its identity and its fields.  [new] gives a fresh
    identity; objects are never mutated. *)
Record Entity : Type := { oid : nat; content : Content }.

(** [a === b] *)
Definition same (a b : Entity) : bool := Nat.eqb (oid a) (oid b).

(** Calls on the logger, the window and the extension state, in order. *)
Inductive Effect : Type :=
| LoggerError (msg : jsstring)
| LoggerDebug (msg : jsstring)
| ShowErrorMessage (msg : jsstring)
| WorkspaceSet (l : list Entity)
| ProjectSet (l : list Entity)
| SetFallbackProjects (l : list Entity)
| ReloadWorkspace
| ReloadProject (p : Entity).

Record Model : Type := { items : list Entity; selected : option Entity }.

Record State : Type := {
  workspace : Model;
  project : Model;
  fallbackProjects : list Entity;
  effects : list Effect;
  nextOid : nat
}.

(** What the other callbacks do to the state while this one waits at
    an [await]. *)
Variable others : State -> State.

Definition M (A : Type) : Type := State -> Completion A * State.

Definition ret {A : Type} (a : A) : M A := fun st => (Normal a, st).

Definition bind {A B : Type} (m : M A) (k : A -> M B) : M B :=
  fun st =>
    match m st with
    | (Normal a, st') => k a st'
    | (Throw e, st') => (Throw e, st')
    end.

Definition tryCatch {A : Type} (m : M A) (handler : jsstring -> M A) : M A :=
  fun st =>
    match m st with
    | (Normal a, st') => (Normal a, st')
    | (Throw e, st') => handler e st'
    end.

Definition gets {A : Type} (f : State -> A) : M A := fun st => (Normal (f st), st).

Definition emit (e : Effect) : M unit :=
  fun st => (Normal tt,
             {| workspace := workspace st; project := project st;
                fallbackProjects := fallbackProjects st;
                effects := effects st ++ [e]; nextOid := nextOid st |}).

Definition await : M unit := fun st => (Normal tt, others st).

Notation "x <- m ;; k" := (bind m (fun x => k))
  (at level 61, m at next level, right associativity).
Notation "m ;;; k" := (bind m (fun _ => k))
  (at level 61, right associativity).

(** [new EwwFile(file)] and [new EwpFile(file)]: parse the file as it
    is on disk now; a parse error is thrown. *)
Definition construct (parse : jsstring -> Content + jsstring) (file : jsstring)
  : M Entity :=
  fun st =>
    match parse file with
    | inl c =>
        (Normal {| oid := nextOid st; content := c |},
         {| workspace := workspace st; project := project st;
            fallbackProjects := fallbackProjects st;
            effects := effects st; nextOid := S (nextOid st) |})
    | inr e => (Throw e, st)
    end.

(** Modelled from the spec: the selection model's [set(...)] is not in
    src.  It replaces the held sequence; the selection is kept when an
    entity with the same file path is in the new sequence, and becomes
    none otherwise. *)
Definition Model_set (l : list Entity) (m : Model) : Model :=
  {| items := l;
     selected :=
       match selected m with
       | Some s =>
           find (fun e => JsString.eqb (path (content e)) (path (content s))) l
       | None => None
       end |}.

(** [ExtensionState.getInstance().workspace.set(...l)] *)
Definition workspaceSet (l : list Entity) : M unit :=
  fun st => (Normal tt,
             {| workspace := Model_set l (workspace st); project := project st;
                fallbackProjects := fallbackProjects st;
                effects := effects st ++ [WorkspaceSet l]; nextOid := nextOid st |}).

(** [ExtensionState.getInstance().project.set(...l)] *)
Definition projectSet (l : list Entity) : M unit :=
  fun st => (Normal tt,
             {| workspace := workspace st; project := Model_set l (project st);
                fallbackProjects := fallbackProjects st;
                effects := effects st ++ [ProjectSet l]; nextOid := nextOid st |}).

(** Modelled from the spec: [ExtensionState.setFallbackProjects] and
    [getFallbackProjects] are not in src.  The fallback projects are
    all known projects, the candidates of the project model while no
    workspace is selected; the setter replaces them. *)
Definition setFallbackProjects (l : list Entity) : M unit :=
  fun st => (Normal tt,
             {| workspace := workspace st; project := project st;
                fallbackProjects := l;
                effects := effects st ++ [SetFallbackProjects l];
                nextOid := nextOid st |}).

(** Modelled from the spec: [Project.isIgnoredFile] is not in src.  A
    file is ignored when the configured exclusion matches it, and
    always when its name is backup-shaped. *)
Definition isIgnoredFile (file : jsstring) : bool :=
  excluded file || BackupUtils.isBackupFile file.

Definition jsonOf (l : list Entity) : jsstring := stringify (map content l).

Definition byName (a b : Entity) : Z :=
  localeCompare (name (content a)) (name (content b)).

Definition couldNotParse (kind file e : jsstring) : jsstring :=
  js "Could not parse " ++ kind ++ js " file '" ++ file ++ js "': " ++ e.

(** The [forEach] with its [try]/[catch]: parsed files are pushed in
    order, a failure is logged and shown and the loop goes on. *)
Fixpoint parseEach (kind : jsstring) (parse : jsstring -> Content + jsstring)
         (files : list jsstring) (acc : list Entity) : M (list Entity) :=
  match files with
  | [] => ret acc
  | file :: rest =>
      acc' <- tryCatch
                (e <- construct parse file ;; ret (acc ++ [e]))
                (fun e =>
                   emit (LoggerError (couldNotParse kind file e)) ;;;
                   emit (ShowErrorMessage (couldNotParse kind file e)) ;;;
                   ret acc) ;;
      parseEach kind parse rest acc'
  end.

(** [IarVsc.ewwWatcher.subscribe(files => ...)] *)
Definition ewwSubscribe (parse : jsstring -> Content + jsstring)
           (files : list jsstring) : M unit :=
  workspaces <- parseEach (js "workspace") parse files [] ;;
  emit (LoggerDebug (js "Found " ++ JsString.of_nat (length workspaces) ++
                     js " workspace(s) in the VS Code workspace")) ;;;
  workspaceSet (sort byName workspaces).

(** [IarVsc.ewwWatcher.onFileModified(async modifiedFile => ...)] *)
Definition ewwOnFileModified (parse : jsstring -> Content + jsstring)
           (modifiedFile : jsstring) : M unit :=
  found <- gets (fun st =>
             find (fun ws => pathsEqual (path (content ws)) modifiedFile)
                  (items (workspace st))) ;;
  match found with
  | Some oldWorkspace =>
      reloadedWorkspace <- construct parse modifiedFile ;;
      await ;;;
      if negb (workspaceEqual (content oldWorkspace) (content reloadedWorkspace))
      then
        current <- gets (fun st => items (workspace st)) ;;
        workspaceSet
          (map (fun workspace =>
                  if same workspace oldWorkspace then reloadedWorkspace
                  else workspace) current)
      else
        sel <- gets (fun st => selected (workspace st)) ;;
        match sel with
        | Some s =>
            if same s oldWorkspace then emit ReloadWorkspace ;;; await
            else ret tt
        | None => ret tt
        end
  | None => ret tt
  end.

(** [IarVsc.ewpWatcher.subscribe(files => ...)] *)
Definition ewpSubscribe (parse : jsstring -> Content + jsstring)
           (files : list jsstring) : M unit :=
  projects <- parseEach (js "project") parse
                (filter (fun file => negb (isIgnoredFile file)) files) [] ;;
  let projects := sort byName projects in
  current <- gets fallbackProjects ;;
  if negb (JsString.eqb (jsonOf projects) (jsonOf current))
  then
    emit (LoggerDebug (js "Found " ++ JsString.of_nat (length projects) ++
                       js " project(s) in the VS Code workspace")) ;;;
    setFallbackProjects projects
  else ret tt.

(** [IarVsc.ewpWatcher.onFileModified(async modifiedFile => ...)] *)
Definition ewpOnFileModified (parse : jsstring -> Content + jsstring)
           (modifiedFile : jsstring) : M unit :=
  found <- gets (fun st =>
             find (fun project => pathsEqual (path (content project)) modifiedFile)
                  (items (project st))) ;;
  match found with
  | Some oldProject =>
      emit (ReloadProject oldProject) ;;;
      await ;;;
      reloadedProject <- construct parse modifiedFile ;;
      if negb (projectEqual (content oldProject) (content reloadedProject))
      then
        current <- gets (fun st => items (project st)) ;;
        projectSet
          (map (fun project =>
                  if same project oldProject then reloadedProject
                  else project) current)
      else ret tt
  | None => ret tt
  end.

End Reconciler.

End Main.

(* ===================================================================== *)
(** * main.ts: loadTools *)
(* ===================================================================== *)

Module Tools.

(** The calls [loadTools] makes, in order. *)
Inductive Call : Type :=
| WorkbenchesLoading (value : bool)       (* IarVsc.workbenchesLoading.next *)
| CollectWorkbenches (roots : list jsstring)
| ShowNoToolchainError                    (* vscode.window.showErrorMessage *)
| ExecuteCommand (id : jsstring).         (* vscode.commands.executeCommand *)

(** What [loadTools] meets: the configured install directories, the
    number of workbenches the tool manager holds after collecting from
    them or the failure of the collection, and the item the user picks
    in the error message, if any. *)
Record Env : Type := {
  installDirectories : list jsstring;
  collected : list jsstring -> nat + jsstring;
  response : option jsstring
}.

Definition addToolchain : jsstring := js "Add IAR toolchain".

(** [loadTools(addWorkbenchCommand?)], with the id of the command.
    The callback of [then] runs when the user has answered, after
    [loadTools] has gone on. *)
Definition loadTools (env : Env) (addWorkbenchCommand : option jsstring)
  : Main.Completion unit * list Call :=
  let roots := installDirectories env in
  match collected env roots with
  | inr e => (Main.Throw e, [WorkbenchesLoading true; CollectWorkbenches roots])
  | inl amount =>
      match Nat.eqb amount 0, addWorkbenchCommand with
      | true, Some id =>
          (Main.Normal tt,
           [WorkbenchesLoading true; CollectWorkbenches roots;
            ShowNoToolchainError; WorkbenchesLoading false] ++
           match response env with
           | Some item =>
               if JsString.eqb item addToolchain then [ExecuteCommand id] else []
           | None => []
           end)
      | _, _ =>
          (Main.Normal tt,
           [WorkbenchesLoading true; CollectWorkbenches roots;
            WorkbenchesLoading false])
      end
  end.

End Tools.

(* ===================================================================== *)
(** * The vocabulary of the statements *)
(* ===================================================================== *)

(** What the statements about [mergeUnique] speak of. *)
Module MergeUniqueSpec.

Import JsString.

(** The keys of a list in the order of their first occurrence. *)
Definition firstOccurrences (ks : list jsstring) : list jsstring :=
  fold_left (fun acc k => if includes acc k then acc else acc ++ [k]) ks [].

(** The last element with key [k]. *)
Definition lastWithKey {T : Type} (getKey : T -> jsstring) (k : jsstring)
           (l : list T) : option T :=
  find (fun x => eqb (getKey x) k) (rev l).

(** [Map.prototype.get] *)
Definition get {T : Type} (k : jsstring) (m : JsMap.t T) : option T :=
  option_map snd (find (fun e => eqb (fst e) k) m).

(** Every value is stored under its own key. *)
Definition keyed {T : Type} (getKey : T -> jsstring) (m : JsMap.t T) : Prop :=
  Forall (fun e => getKey (snd e) = fst e) m.

End MergeUniqueSpec.

(** What the statements about the pattern compiler speak of. *)
Module PatternSpec.

Import RegExp Pattern.

(** The frame after the atoms of a literal text. *)
Definition push_lit (t : jsstring) (f : Frame) : Frame :=
  fold_left (fun f c => push_atom (Char c) f) t f.

End PatternSpec.

(** What the statements about [doWithBackupCheck] speak of. *)
Module BackupGuardSpec.

Import RegExp Pattern BackupGuard Fs.

(** The project name the patterns are built from. *)
Definition projectName (project : jsstring) : jsstring :=
  Path.basename_ext project (js ".ewp").

Definition engPrefix : list Regex :=
  lit (js "Backup") ++
  [Plus Space; Opt (Group (seqs [Char Cu.lparen; Plus Digit; Char Cu.rparen]));
   Star Space] ++
  lit (js "of ").

Definition jpnSuffix : list Regex :=
  [Plus Space] ++ lit BackupUtils.noBackup ++
  [Opt (Group (seqs [Plus Space; Char Cu.lparen; Plus Digit; Char Cu.rparen]))] ++
  lit (js ".ew").

(** The terms of the two patterns for a project named [n]. *)
Definition engTerms (n : jsstring) : list Regex :=
  engPrefix ++ lit n ++ lit (js ".ew").

Definition jpnTerms (n : jsstring) : list Regex := lit n ++ jpnSuffix.

(** Whether a file name is a backup of [project], by the two compiled
    patterns. *)
Definition isBackupOf (project file : jsstring) : bool :=
  isBackup (seqs (engTerms (projectName project)))
           (seqs (jpnTerms (projectName project))) file.


(** What the claim about the returned promise says of one run. *)
Definition settles_as_the_task {X T : Type} (project : jsstring)
           (task : Task X T)
           (d : Dir) : Prop :=
  returned (doWithBackupCheck project task d) = fst (task d).

End BackupGuardSpec.

(** Runs of [doWithBackupCheck] for the project [/ws/Foo.ewp]. *)
Module BackupScenario.

Import BackupGuard Fs JsString.

Definition project : jsstring := js "/ws/Foo.ewp".

(** A directory without file-system failures. *)
Definition plain (files : list jsstring) : Dir :=
  {| entries := files; readdirError := None; rmError := fun _ => None |}.

Definition before : Dir := plain [js "Foo.ewp"; js "Unrelated.ewp"].

(** The task leaves two backups behind. *)
Definition backingUp : Task unit nat :=
  fun d => (Fulfilled 7,
            plain (entries d ++ [js "Backup of Foo.ewp"; js "Backup of Foo.ewt"])).


(** The task leaves a backup behind and the directory cannot be listed
    any more. *)
Definition backingUpUnlistable : Task unit nat :=
  fun d => (Fulfilled 7,
            {| entries := entries d ++ [js "Backup of Foo.ewp"];
               readdirError := Some (js "EACCES");
               rmError := fun _ => None |}).

(** An old backup is replaced by a new one while the task runs. *)
Definition beforeRotating : Dir := plain [js "Foo.ewp"; js "Backup of Foo.ewp"].

Definition rotating : Task unit nat :=
  fun _ => (Fulfilled 7, plain [js "Foo.ewp"; js "Backup (2) of Foo.ewp"]).

(** The directory cannot be listed when [doWithBackupCheck] starts. *)
Definition unlistable : Dir :=
  {| entries := [js "Foo.ewp"]; readdirError := Some (js "ENOENT");
     rmError := fun _ => None |}.

End BackupScenario.

(** Orders on strings. *)
Module Collation.

Local Open Scope N_scope.

(** Code-unit order: the case-sensitive lexicographic order. *)
Fixpoint lexCompare (a b : jsstring) : comparison :=
  match a, b with
  | [], [] => Eq
  | [], _ :: _ => Lt
  | _ :: _, [] => Gt
  | x :: a', y :: b' =>
      match N.compare x y with
      | Eq => lexCompare a' b'
      | c => c
      end
  end.


Definition toLower (c : N) : N :=
  if (65 <=? c) && (c <=? 90) then c + 32 else c.

Definition sign (c : comparison) : Z :=
  match c with Lt => (-1)%Z | Eq => 0%Z | Gt => 1%Z end.

(** A collation as [localeCompare] has it for the letters A to Z: the
    alphabet decides whatever the case; between strings that differ in
    case only, lower case comes first. *)
Definition collate (a b : jsstring) : Z :=
  match lexCompare (map toLower a) (map toLower b) with
  | Eq => sign (lexCompare b a)
  | c => sign c
  end.

End Collation.

(** What the statements about the watcher callbacks speak of. *)
Module MainSpec.

Import Main JsString.

(** [a] may stay before [b]. *)
Definition before {A : Type} (compare : A -> A -> Z) (a b : A) : Prop :=
  (compare a b <= 0)%Z.

Section Callbacks.

Context {host : Host}.

(** The comparison of the sort, on the parsed fields. *)
Definition byContentName (a b : Content) : Z := localeCompare (name a) (name b).

(** The files that parse, in order. *)
Definition parsed (parse : jsstring -> Content + jsstring)
           (files : list jsstring) : list Content :=
  flat_map (fun file => match parse file with inl c => [c] | inr _ => [] end) files.

(** The objects made of them, numbered from [n] on. *)
Fixpoint fresh (parse : jsstring -> Content + jsstring)
         (files : list jsstring) (n : nat) : list Entity :=
  match files with
  | [] => []
  | file :: rest =>
      match parse file with
      | inl c => {| oid := n; content := c |} :: fresh parse rest (S n)
      | inr _ => fresh parse rest n
      end
  end.

(** What is logged and shown for the files that do not parse. *)
Definition reports (kind : jsstring) (parse : jsstring -> Content + jsstring)
           (files : list jsstring) : list Effect :=
  flat_map (fun file =>
              match parse file with
              | inl _ => []
              | inr e => [LoggerError (couldNotParse kind file e);
                          ShowErrorMessage (couldNotParse kind file e)]
              end) files.

(** The state after some effects and some allocations. *)
Definition advance (st : State) (effs : list Effect) (n : nat) : State :=
  {| workspace := workspace st; project := project st;
     fallbackProjects := fallbackProjects st;
     effects := effects st ++ effs; nextOid := nextOid st + n |}.

Definition foundMessage (n : nat) (what : jsstring) : jsstring :=
  js "Found " ++ JsString.of_nat n ++ what.

(** Calls of a [set] among some effects. *)
Definition isSet (e : Effect) : bool :=
  match e with
  | WorkspaceSet _ | ProjectSet _ | SetFallbackProjects _ => true
  | _ => false
  end.

Definition setCalls (effs : list Effect) : nat := length (filter isSet effs).

(** The state after one allocation, and after one more effect. *)
Definition bump (st : State) : State :=
  {| workspace := workspace st; project := project st;
     fallbackProjects := fallbackProjects st;
     effects := effects st; nextOid := S (nextOid st) |}.

Definition noted (e : Effect) (st : State) : State :=
  {| workspace := workspace st; project := project st;
     fallbackProjects := fallbackProjects st;
     effects := effects st ++ [e]; nextOid := nextOid st |}.

(** The list with [new] at every position that holds [old]. *)
Definition replaced (old new : Entity) (l : list Entity) : list Entity :=
  map (fun e => if same e old then new else e) l.

Definition trackedWorkspace (file : jsstring) (st : State) : option Entity :=
  find (fun ws => pathsEqual (path (content ws)) file) (items (workspace st)).

Definition trackedProject (file : jsstring) (st : State) : option Entity :=
  find (fun p => pathsEqual (path (content p)) file) (items (project st)).

(** An effect other than the report of a parse failure. *)
Definition notReport (e : Effect) : Prop :=
  match e with
  | LoggerError _ | ShowErrorMessage _ => False
  | _ => True
  end.

End Callbacks.

End MainSpec.

(** Runs of the callbacks in a VS Code workspace [/ws]. *)
Module WatcherScenario.

Import Main MainSpec JsString Collation.

(** What a parsed file holds here: a name, its path and the rest. *)
Record File : Type := { fileName : jsstring; filePath : jsstring; body : jsstring }.

Definition file_eqb (a b : File) : bool :=
  eqb (fileName a) (fileName b) && eqb (filePath a) (filePath b) &&
  eqb (body a) (body b).

Definition serialize (l : list File) : jsstring :=
  js "[" ++
  flat_map (fun f => js "{" ++ fileName f ++ js "|" ++ filePath f ++ js "|" ++
                     body f ++ js "}") l ++
  js "]".

#[export] Instance host : Host := {|
  Content := File;
  name := fileName;
  path := filePath;
  stringify := serialize;
  localeCompare := collate;
  pathsEqual := eqb;
  workspaceEqual := file_eqb;
  projectEqual := file_eqb;
  excluded := fun _ => false
|}.

(** The files on disk, each with what parsing it gives. *)
Definition onDisk (table : list (jsstring * (File + jsstring)))
           (file : jsstring) : File + jsstring :=
  match find (fun entry => eqb (fst entry) file) table with
  | Some (_, r) => r
  | None => inr (js "Error: ENOENT")
  end.

Definition parsedAs (n file content : string) : jsstring * (File + jsstring) :=
  (js file, inl {| fileName := js n; filePath := js file; body := js content |}).

Definition corrupt (file : string) : jsstring * (File + jsstring) :=
  (js file, inr (js "Error: unexpected end of file")).

Definition noModel : Model := {| items := []; selected := None |}.

Definition start : State :=
  {| workspace := noModel; project := noModel; fallbackProjects := [];
     effects := []; nextOid := 0 |}.

(** No other callback runs while one waits. *)
Definition undisturbed (st : State) : State := st.

(** Two project files, one of them corrupt. *)
Definition goodAndCorrupt : jsstring -> File + jsstring :=
  onDisk [parsedAs "Good" "/ws/Good.ewp" "<project/>"; corrupt "/ws/Corrupt.ewp"].


(** One workspace file, sound and corrupt. *)
Definition oneWorkspace : jsstring -> File + jsstring :=
  onDisk [parsedAs "A" "/ws/A.eww" "<workspace/>"].

Definition oneWorkspaceCorrupt : jsstring -> File + jsstring :=
  onDisk [corrupt "/ws/A.eww"].

(** Two workspace files, and the state after their first delivery. *)
Definition twoWorkspaces : jsstring -> File + jsstring :=
  onDisk [parsedAs "A" "/ws/A.eww" "<workspace/>";
          parsedAs "B" "/ws/B.eww" "<workspace/>"].

Definition tracking : State :=
  snd (ewwSubscribe twoWorkspaces [js "/ws/A.eww"; js "/ws/B.eww"] start).

(** The second of them has changed on disk. *)
Definition twoWorkspacesChanged : jsstring -> File + jsstring :=
  onDisk [parsedAs "A" "/ws/A.eww" "<workspace/>";
          parsedAs "B" "/ws/B.eww" "<workspace><project/></workspace>"].


(** A project model that tracks [/ws/P.ewp]. *)
Definition trackedP : Entity :=
  {| oid := 0;
     content := {| fileName := js "P"; filePath := js "/ws/P.ewp";
                   body := js "<project/>" |} |}.

Definition trackingProject : State :=
  {| workspace := noModel;
     project := {| items := [trackedP]; selected := None |};
     fallbackProjects := [trackedP]; effects := []; nextOid := 1 |}.

Definition projectCorrupt : jsstring -> File + jsstring :=
  onDisk [corrupt "/ws/P.ewp"].

Definition unexpectedEnd : jsstring := js "Error: unexpected end of file".

Definition good : File :=
  {| fileName := js "Good"; filePath := js "/ws/Good.ewp"; body := js "<project/>" |}.

Definition couldNotParseA : jsstring :=
  js "Could not parse workspace file '/ws/A.eww': Error: unexpected end of file".

Definition couldNotParseCorrupt : jsstring :=
  js "Could not parse project file '/ws/Corrupt.ewp': Error: unexpected end of file".

Definition trackedA : Entity :=
  {| oid := 0;
     content := {| fileName := js "A"; filePath := js "/ws/A.eww";
                   body := js "<workspace/>" |} |}.

Definition trackedB : Entity :=
  {| oid := 1;
     content := {| fileName := js "B"; filePath := js "/ws/B.eww";
                   body := js "<workspace/>" |} |}.

Definition changedB : File :=
  {| fileName := js "B"; filePath := js "/ws/B.eww";
     body := js "<workspace><project/></workspace>" |}.

End WatcherScenario.

(** What the statements about the matcher speak of. *)
Module RegExpSpec.

Import RegExp.

(** The loop of a star, with the matcher of its body as a parameter. *)
Definition star_loop (body : nat -> jsstring -> (nat -> jsstring -> bool) -> bool)
           (k : nat -> jsstring -> bool) : nat -> nat -> jsstring -> bool :=
  fix loop (fuel : nat) (i : nat) (s : jsstring) {struct fuel} : bool :=
    match fuel with
    | O => k i s
    | S fuel' =>
        body i s (fun j u => Nat.ltb (length u) (length s) && loop fuel' j u)
        || k i s
    end.

(** The code unit [c] is one the single-unit term [r] takes. *)
Definition takes (r : Regex) (c : N) : Prop :=
  forall i s k, rmatch r i (c :: s) k = k (S i) s.

End RegExpSpec.

(** What the statements about names, paths and escaped texts speak of. *)
Module UtilsSpec.

Local Open Scope N_scope.

(** The text an escaped text stands for: a backslash gives way to the
    code unit after it. *)
Fixpoint unescape (s : jsstring) : jsstring :=
  match s with
  | [] => []
  | c :: s' =>
      if c =? Cu.backslash then
        match s' with
        | d :: s'' => d :: unescape s''
        | [] => [c]
        end
      else c :: unescape s'
  end.

Definition notSlash (c : N) : Prop := c <> Cu.slash.

(** A code unit of a file name that is no line break. *)
Definition plainUnit (c : N) : Prop :=
  RegExp.isLineTerminator c = false /\ notSlash c.

(** A decimal digit. *)
Definition digitUnit (c : N) : Prop := RegExp.isDigit c = true.

(** An element under its key, as the map holds it. *)
Definition entryOf {T : Type} (getKey : T -> jsstring) (x : T) : jsstring * T :=
  (getKey x, x).

End UtilsSpec.

(** What the statements about [determineLanguage] speak of. *)
Module LanguageSpec.

(** A code unit of an extension or of a name without dots. *)
Definition plainExt (c : N) : Prop := c <> Cu.dot /\ c <> Cu.slash.

(** A file name alone, or after a directory prefix. *)
Definition dirPrefix (prefix : jsstring) : Prop :=
  prefix = [] \/ exists dir, prefix = dir ++ [Cu.slash].

End LanguageSpec.

(** Counting the files that fail to parse. *)
Module MainSpecMore.

Import Main MainSpec JsString.

Section Callbacks.

Context {host : Host}.

(** The files that do not parse. *)
Definition unparsed (parse : jsstring -> Content + jsstring)
           (files : list jsstring) : list jsstring :=
  filter (fun file => match parse file with inl _ => false | inr _ => true end)
         files.

Definition isLoggerError (e : Effect) : bool :=
  match e with LoggerError _ => true | _ => false end.

Definition isShowErrorMessage (e : Effect) : bool :=
  match e with ShowErrorMessage _ => true | _ => false end.

End Callbacks.

End MainSpecMore.

(* ===================================================================== *)
(** * Facts about strings *)
(* ===================================================================== *)

Module JsStringFacts.

Import JsString.

Lemma eqb_spec (a b : t) : reflect (a = b) (eqb a b).
Proof.
  revert b; induction a as [|x a IH]; intros [|y b]; simpl;
    try (constructor; congruence).
  destruct (N.eqb_spec x y) as [->|Hne]; simpl.
  - destruct (IH b) as [->|Hne]; constructor; congruence.
  - constructor; congruence.
Qed.

Lemma eqb_refl (a : t) : eqb a a = true.
Proof. destruct (eqb_spec a a); congruence. Qed.

Lemma eqb_eq (a b : t) : eqb a b = true <-> a = b.
Proof. destruct (eqb_spec a b); split; congruence. Qed.

Lemma eqb_neq (a b : t) : eqb a b = false <-> a <> b.
Proof. destruct (eqb_spec a b); split; congruence. Qed.

Lemma includes_In (l : list t) (x : t) : includes l x = true <-> In x l.
Proof.
  unfold includes; rewrite existsb_exists; split.
  - intros (y & Hy & E); apply eqb_eq in E; subst; exact Hy.
  - intros H; exists x; split; [exact H | apply eqb_refl].
Qed.

Lemma includes_not_In (l : list t) (x : t) : includes l x = false <-> ~ In x l.
Proof.
  rewrite <- includes_In; destruct (includes l x); split; congruence.
Qed.

End JsStringFacts.

(* ===================================================================== *)
(** * Facts about the matcher and the pattern compiler *)
(* ===================================================================== *)

Module RegExpFacts.

Import RegExp Pattern PatternSpec.

Lemma seq_of_snoc (l : list Regex) (a : Regex) :
  seq_of (l ++ [a]) = match l with [] => a | _ :: _ => Seq a (seq_of l) end.
Proof.
  destruct l as [|t ts]; [reflexivity|].
  simpl. rewrite fold_left_app. reflexivity.
Qed.

(** A sequence matches term by term. *)
Lemma rmatch_seqs_cons (a : Regex) (rest : list Regex) i s k :
  rmatch (seqs (a :: rest)) i s k =
  rmatch a i s (fun j u => rmatch (seqs rest) j u k).
Proof.
  unfold seqs. simpl rev. rewrite seq_of_snoc.
  destruct (rev rest) eqn:E; reflexivity.
Qed.

Lemma rmatch_seqs_nil i s k : rmatch (seqs []) i s k = k i s.
Proof. reflexivity. Qed.

(** Close a goal by a hypothesis that differs in how the offset is
    written. *)
Ltac same_offset H :=
  match type of H with
  | rmatch ?r ?n ?v ?k = true =>
      match goal with
      | |- rmatch r ?m v k = true =>
          replace m with n by (cbn [length]; lia); exact H
      end
  end.

(** A literal text matches exactly itself. *)
Lemma rmatch_lit (t : jsstring) (rest : list Regex) i s k :
  rmatch (seqs (lit t ++ rest)) i s k = true <->
  exists v, s = t ++ v /\ rmatch (seqs rest) (length t + i) v k = true.
Proof.
  revert i s; induction t as [|c t IH]; intros i s.
  - simpl. split.
    + intros H; exists s; auto.
    + intros (v & -> & H); exact H.
  - change (lit (c :: t) ++ rest) with (Char c :: (lit t ++ rest)).
    rewrite rmatch_seqs_cons. simpl rmatch. unfold one.
    destruct s as [|x s].
    + split; [discriminate|]. intros (v & E & _); discriminate.
    + rewrite andb_true_iff, IH, N.eqb_eq. split.
      * intros (-> & v & -> & H). exists v. split; [reflexivity|].
        same_offset H.
      * intros (v & E & H). injection E as -> ->. split; [reflexivity|].
        exists v. split; [reflexivity|].
        same_offset H.
Qed.

(** [search] finds a match exactly when some suffix has one. *)
Lemma search_spec (r : Regex) i s :
  search r i s = true <->
  exists pre post,
    s = pre ++ post /\ rmatch r (length pre + i) post (fun _ _ => true) = true.
Proof.
  revert i; induction s as [|c s IH]; intros i; simpl search.
  - rewrite orb_false_r. split.
    + intros H; exists [], []; auto.
    + intros (pre & post & E & H).
      symmetry in E; apply app_eq_nil in E; destruct E as [-> ->]; exact H.
  - rewrite orb_true_iff, IH. split.
    + intros [H | (pre & post & -> & H)].
      * exists [], (c :: s); auto.
      * exists (c :: pre), post. split; [reflexivity|].
        same_offset H.
    + intros (pre & post & E & H). destruct pre as [|x pre].
      * left. simpl in E; subst post. exact H.
      * right. injection E as -> ->. exists pre, post. split; [reflexivity|].
        same_offset H.
Qed.

(** The two spellings of the fourteen syntax characters agree. *)
Lemma special_syntax (c : N) :
  RegexUtils.special c = isSyntaxCharacter c.
Proof.
  unfold RegexUtils.special, isSyntaxCharacter. simpl.
  repeat match goal with
         | |- context [N.eqb c ?k] =>
             destruct (N.eqb_spec c k) as [->|]; [reflexivity|]
         end.
  reflexivity.
Qed.

Lemma parse_plain st cur c p :
  isSyntaxCharacter c = false ->
  parse st cur (c :: p) = parse st (push_atom (Char c) cur) p.
Proof. intros H. simpl. rewrite H. reflexivity. Qed.

Lemma atomEscape_syntax c :
  isSyntaxCharacter c = true -> atomEscape c = Some (Char c).
Proof.
  intros H. unfold atomEscape.
  destruct (N.eqb_spec c Cu.letter_d) as [->|_]; [discriminate H|].
  destruct (N.eqb_spec c Cu.letter_s) as [->|_]; [discriminate H|].
  rewrite H. reflexivity.
Qed.

Lemma parse_escaped st cur c p :
  isSyntaxCharacter c = true ->
  parse st cur (Cu.backslash :: c :: p) = parse st (push_atom (Char c) cur) p.
Proof.
  intros H. cbn [parse].
  change (isSyntaxCharacter Cu.backslash) with true.
  change (N.eqb Cu.backslash Cu.backslash) with true.
  cbn [negb]. rewrite atomEscape_syntax by exact H. reflexivity.
Qed.

(** An escaped text compiles to the atoms of the text. *)
Lemma parse_escape (t : jsstring) st cur p :
  parse st cur (RegexUtils.escape t ++ p) = parse st (push_lit t cur) p.
Proof.
  revert cur; induction t as [|c t IH]; intros cur; [reflexivity|].
  unfold RegexUtils.escape. cbn [flat_map]. fold (RegexUtils.escape t).
  rewrite special_syntax.
  destruct (isSyntaxCharacter c) eqn:E.
  - cbn [app]. rewrite parse_escaped by exact E. apply IH.
  - cbn [app]. rewrite parse_plain by exact E. apply IH.
Qed.

Lemma push_lit_terms t f : terms (push_lit t f) = rev (lit t) ++ terms f.
Proof.
  revert f; induction t as [|c t IH]; intros f; [reflexivity|].
  simpl. rewrite IH. simpl. rewrite <- app_assoc. reflexivity.
Qed.

Lemma push_lit_alts t f : alts (push_lit t f) = alts f.
Proof.
  revert f; induction t as [|c t IH]; intros f; [reflexivity|].
  simpl. rewrite IH. reflexivity.
Qed.

Lemma compile_escape (t : jsstring) :
  compile (RegexUtils.escape t) = Some (seqs (lit t)).
Proof.
  unfold compile. rewrite <- (app_nil_r (RegexUtils.escape t)).
  rewrite parse_escape. cbn [parse]. unfold close.
  rewrite push_lit_alts, push_lit_terms. simpl.
  rewrite app_nil_r. reflexivity.
Qed.

End RegExpFacts.

Module BackupGuardFacts.

Import RegExp Pattern RegExpFacts BackupGuard BackupGuardSpec Fs JsStringFacts.

Lemma seq_of_app (l1 l2 : list Regex) :
  l1 <> [] ->
  seq_of (l1 ++ l2) = fold_left (fun acc x => Seq x acc) l2 (seq_of l1).
Proof.
  destruct l1 as [|t ts]; [congruence|]. intros _.
  simpl. apply fold_left_app.
Qed.

Lemma seqs_around (P S0 : list Regex) (n : jsstring) :
  S0 <> [] ->
  seqs (P ++ lit n ++ S0) =
  fold_left (fun acc x => Seq x acc) (rev (lit n) ++ rev P) (seq_of (rev S0)).
Proof.
  intros H. unfold seqs. rewrite !rev_app_distr, <- app_assoc.
  apply seq_of_app. intros E. apply H.
  apply (f_equal (@rev Regex)) in E. rewrite rev_involutive in E. exact E.
Qed.

(** [new RegExp] never throws on the first template. *)
Lemma backupRegexEng_compiles (project : jsstring) :
  backupRegexEng project = Some (seqs (engTerms (projectName project))).
Proof.
  unfold backupRegexEng, projectNameRegex, compile. fold (projectName project).
  generalize (projectName project) as n; intros n.
  remember (RegexUtils.escape n ++ js "\.ew") as tail eqn:Etail.
  remember (seqs (engTerms n)) as expected eqn:Eexp.
  cbn. subst tail. rewrite parse_escape. cbn.
  unfold close. cbn [alts terms]. rewrite push_lit_alts, push_lit_terms.
  subst expected. unfold engTerms. rewrite seqs_around by discriminate.
  reflexivity.
Qed.

(** Nor on the second. *)
Lemma backupRegexJpn_compiles (project : jsstring) :
  backupRegexJpn project = Some (seqs (jpnTerms (projectName project))).
Proof.
  unfold backupRegexJpn, projectNameRegex, compile. fold (projectName project).
  generalize (projectName project) as n; intros n.
  remember (seqs (jpnTerms n)) as expected eqn:Eexp.
  rewrite parse_escape. cbn.
  unfold close. cbn [alts terms]. rewrite push_lit_alts, push_lit_terms.
  subst expected. unfold jpnTerms. change (lit n ++ jpnSuffix) with ([] ++ lit n ++ jpnSuffix).
  rewrite seqs_around by discriminate.
  reflexivity.
Qed.

End BackupGuardFacts.

(* ===================================================================== *)
(** * RegexUtils.escape and BackupUtils.isBackupFile *)
(* ===================================================================== *)

Module UtilsTheorems.

Import RegExp Pattern RegExpFacts JsString.

(** The regular-expression literals of [isBackupFile] are the compiled
    forms of their pattern texts. *)
Lemma isBackupEng_pattern :
  compile (js "^Backup\s+(\(\d+\)\s+)?of.*\.ewp$") = Some BackupUtils.isBackupEng.
Proof. reflexivity. Qed.

Lemma isBackupJpn_pattern :
  compile (js "^.*\s+" ++ BackupUtils.noBackup ++ js "(\s+\(\d+\))?\.ewp$")
  = Some BackupUtils.isBackupJpn.
Proof. reflexivity. Qed.

(** C6: [isBackupFile] holds of the English-style name with a counter
    and of the Japanese-style name with a counter, and does not hold of
    a name that merely contains the word Backup. *)
Theorem isBackupFile_locale_names :
  BackupUtils.isBackupFile (js "Backup (2) of Foo.ewp") = true /\
  BackupUtils.isBackupFile (js "Foo " ++ BackupUtils.noBackup ++ js " (3).ewp") = true /\
  BackupUtils.isBackupFile (js "MyBackupFile.ewp") = false.
Proof. repeat split; vm_compute; reflexivity. Qed.

(** C10: the pattern [escape s] compiles, the resulting regular
    expression matches [s], it matches a text exactly when [s] occurs in
    the text, and a match at any offset covers exactly one copy of [s]. *)
Theorem escape_matches_literally (s : jsstring) :
  exists r,
    compile (RegexUtils.escape s) = Some r /\
    test r s = true /\
    (forall t, test r t = true <-> occurs_in s t) /\
    (forall i u k,
        rmatch r i u k = true <->
        exists v, u = s ++ v /\ k (length s + i) v = true).
Proof.
  exists (seqs (lit s)).
  assert (Hm : forall i u k,
             rmatch (seqs (lit s)) i u k = true <->
             exists v, u = s ++ v /\ k (length s + i) v = true).
  { intros i u k. rewrite <- (app_nil_r (lit s)). apply rmatch_lit. }
  assert (Ht : forall t, test (seqs (lit s)) t = true <-> occurs_in s t).
  { intros t. unfold test, occurs_in. rewrite search_spec. split.
    - intros (pre & post & -> & H). apply Hm in H. destruct H as (v & -> & _).
      exists pre, v. reflexivity.
    - intros (pre & post & ->). exists pre, (s ++ post). split; [reflexivity|].
      apply Hm. exists post. auto. }
  repeat split.
  - apply compile_escape.
  - apply Ht. exists [], []. rewrite app_nil_r. reflexivity.
  - apply Ht.
  - apply Ht.
  - apply Hm.
  - apply Hm.
Qed.

End UtilsTheorems.

(* ===================================================================== *)
(** * ListUtils.mergeUnique *)
(* ===================================================================== *)

Module MergeUniqueTheorems.

Import JsString JsStringFacts ListUtils MergeUniqueSpec.

Lemma find_app {A : Type} (f : A -> bool) (l1 l2 : list A) :
  find f (l1 ++ l2) =
  match find f l1 with Some x => Some x | None => find f l2 end.
Proof.
  induction l1 as [|x l1 IH]; [reflexivity|].
  simpl. destruct (f x); [reflexivity | exact IH].
Qed.

Section Facts.

Variable T : Type.
Variable getKey : T -> jsstring.

Let step (m : JsMap.t T) (item : T) : JsMap.t T :=
  JsMap.set (getKey item) item m.

Let note (acc : list jsstring) (k : jsstring) : list jsstring :=
  if includes acc k then acc else acc ++ [k].

Lemma collect_concat (lists : list (list T)) (m : JsMap.t T) :
  collect getKey lists m = fold_left step (concat lists) m.
Proof.
  revert m; induction lists as [|l lists IH]; intros m; [reflexivity|].
  simpl. rewrite fold_left_app. apply IH.
Qed.

Lemma keys_set (k : jsstring) (v : T) (m : JsMap.t T) :
  JsMap.keys (JsMap.set k v m) = note (JsMap.keys m) k.
Proof.
  unfold note. induction m as [|[k' v'] m IH]; [reflexivity|].
  simpl. unfold includes in *. simpl.
  destruct (eqb_spec k' k) as [->|Hne].
  - rewrite eqb_refl. reflexivity.
  - assert (E : eqb k k' = false) by (apply eqb_neq; congruence).
    rewrite E. simpl. fold (JsMap.keys (JsMap.set k v m)). rewrite IH.
    fold (JsMap.keys m). destruct (existsb (eqb k) (JsMap.keys m)); reflexivity.
Qed.

Lemma get_set (k k' : jsstring) (v : T) (m : JsMap.t T) :
  get k' (JsMap.set k v m) = if eqb k k' then Some v else get k' m.
Proof.
  unfold get. induction m as [|[k0 v0] m IH]; simpl.
  - destruct (eqb k k'); reflexivity.
  - destruct (eqb_spec k0 k) as [->|Hne]; simpl.
    + destruct (eqb k k'); reflexivity.
    + destruct (eqb_spec k0 k') as [->|Hne'].
      * assert (E : eqb k k' = false) by (apply eqb_neq; congruence).
        rewrite E. reflexivity.
      * exact IH.
Qed.

Lemma keys_fold (l : list T) (m : JsMap.t T) :
  JsMap.keys (fold_left step l m) = fold_left note (map getKey l) (JsMap.keys m).
Proof.
  revert m; induction l as [|x l IH]; intros m; [reflexivity|].
  simpl. rewrite IH. unfold step. rewrite keys_set. reflexivity.
Qed.

Lemma get_fold (k : jsstring) (l : list T) (m : JsMap.t T) :
  get k (fold_left step l m) =
  match lastWithKey getKey k l with
  | Some x => Some x
  | None => get k m
  end.
Proof.
  unfold lastWithKey.
  revert m; induction l as [|x l IH]; intros m; [reflexivity|].
  simpl fold_left. rewrite IH. simpl rev. rewrite find_app.
  destruct (find (fun y => eqb (getKey y) k) (rev l)); [reflexivity|].
  unfold step. rewrite get_set. simpl.
  destruct (eqb (getKey x) k); reflexivity.
Qed.

Lemma keyed_set (v : T) (m : JsMap.t T) :
  keyed getKey m -> keyed getKey (JsMap.set (getKey v) v m).
Proof.
  unfold keyed. induction m as [|[k' v'] m IH]; intros H; simpl.
  - constructor; [reflexivity | constructor].
  - inversion H as [|? ? Hhd Htl]; subst.
    destruct (eqb_spec k' (getKey v)) as [E|Hne].
    + constructor; [simpl; congruence | exact Htl].
    + constructor; [exact Hhd | apply IH; exact Htl].
Qed.

Lemma keyed_fold (l : list T) (m : JsMap.t T) :
  keyed getKey m -> keyed getKey (fold_left step l m).
Proof.
  revert m; induction l as [|x l IH]; intros m H; [exact H|].
  simpl. apply IH. apply keyed_set. exact H.
Qed.

Lemma keyed_values (m : JsMap.t T) :
  keyed getKey m -> map getKey (JsMap.values m) = JsMap.keys m.
Proof.
  unfold keyed, JsMap.values, JsMap.keys. induction 1 as [|e m He _ IH]; simpl.
  - reflexivity.
  - rewrite He, IH. reflexivity.
Qed.

Lemma note_fold_spec (ks acc : list jsstring) :
  NoDup acc ->
  NoDup (fold_left note ks acc) /\
  (forall k, In k (fold_left note ks acc) <-> In k acc \/ In k ks).
Proof.
  revert acc; induction ks as [|k0 ks IH]; intros acc Hnd.
  - simpl. split; [exact Hnd | intros k; tauto].
  - simpl fold_left. unfold note at 2 4.
    destruct (includes acc k0) eqn:E.
    + destruct (IH acc Hnd) as [H1 H2]. split; [exact H1|].
      intros k. rewrite H2. simpl. apply includes_In in E.
      split; [tauto|]. intros [H|[<-|H]]; auto.
    + apply includes_not_In in E.
      assert (Hnd' : NoDup (acc ++ [k0])).
      { apply NoDup_app; [exact Hnd | repeat constructor; simpl; tauto|].
        intros a Ha [<-|[]]. exact (E Ha). }
      destruct (IH _ Hnd') as [H1 H2]. split; [exact H1|].
      intros k. rewrite H2, in_app_iff. simpl. tauto.
Qed.

(** In a map with distinct keys, an entry is what [get] finds. *)
Lemma get_In (m : JsMap.t T) (k : jsstring) (v : T) :
  NoDup (JsMap.keys m) -> In (k, v) m -> get k m = Some v.
Proof.
  unfold get, JsMap.keys. induction m as [|[k0 v0] m IH]; intros Hnd Hin.
  - destruct Hin.
  - simpl in *. inversion Hnd as [|? ? Hnot Hnd']; subst.
    destruct Hin as [E|Hin].
    + injection E as -> ->. rewrite eqb_refl. reflexivity.
    + destruct (eqb_spec k0 k) as [->|Hne].
      * exfalso. apply Hnot. apply (in_map fst) in Hin. exact Hin.
      * apply IH; assumption.
Qed.

End Facts.

(** C9: the result of [mergeUnique] has no two elements with the same
    key; its keys are exactly the keys of the inputs; each element is
    the last one with its key in the concatenated inputs; and the keys
    come in the order of their first occurrence. *)
Theorem mergeUnique_spec (T : Type) (getKey : T -> jsstring)
        (lists : list (list T)) :
  let all := concat lists in
  let result := mergeUnique getKey lists in
  NoDup (map getKey result) /\
  (forall k, In k (map getKey result) <-> In k (map getKey all)) /\
  (forall x, In x result -> lastWithKey getKey (getKey x) all = Some x) /\
  map getKey result = firstOccurrences (map getKey all).
Proof.
  intros all result. unfold result, mergeUnique.
  rewrite collect_concat. fold all.
  set (m := fold_left (fun m item => JsMap.set (getKey item) item m) all []).
  assert (Hkeyed : keyed getKey m) by (apply keyed_fold; constructor).
  assert (Hkeys : JsMap.keys m = firstOccurrences (map getKey all)).
  { unfold m. rewrite keys_fold. reflexivity. }
  destruct (note_fold_spec (map getKey all) (NoDup_nil _)) as [Hnd Hin].
  fold (firstOccurrences (map getKey all)) in Hnd, Hin.
  rewrite (keyed_values Hkeyed), Hkeys.
  repeat split.
  - exact Hnd.
  - intros H. apply Hin in H. destruct H as [[]|H]; exact H.
  - intros H. apply Hin. right. exact H.
  - intros x Hx. unfold JsMap.values in Hx. apply in_map_iff in Hx.
    destruct Hx as ([k v] & E & Hx). simpl in E. subst v.
    assert (Hk : getKey x = k).
    { unfold keyed in Hkeyed. rewrite Forall_forall in Hkeyed.
      exact (Hkeyed _ Hx). }
    subst k. pose proof (get_In m (getKey x) x) as G.
    rewrite Hkeys in G. specialize (G Hnd Hx).
    unfold m in G. rewrite get_fold in G.
    destruct (lastWithKey getKey (getKey x) all); [exact G | discriminate G].
Qed.

End MergeUniqueTheorems.

(* ===================================================================== *)
(** * BackupUtils.doWithBackupCheck *)
(* ===================================================================== *)

Module BackupGuardTheorems.

Import RegExp Pattern BackupGuard BackupGuardSpec Fs JsString JsStringFacts.
Import BackupGuardFacts.

Lemma remove_In (file g : jsstring) (l : list jsstring) :
  In g (remove file l) <-> In g l /\ g <> file.
Proof.
  unfold remove. rewrite filter_In, negb_true_iff, eqb_neq. tauto.
Qed.

(** One removal: nothing but [file] can disappear, and [file] is gone
    afterwards when the removal is not refused. *)
Lemma rm_spec (file : jsstring) (d : Dir) :
  let d' := snd (rm file d) in
  readdirError d' = readdirError d /\
  rmError d' = rmError d /\
  (forall g, In g (entries d') -> In g (entries d)) /\
  (forall g, In g (entries d) -> g <> file -> In g (entries d')) /\
  (rmError d file = None -> ~ In file (entries d')).
Proof.
  unfold rm. destruct (rmError d file) as [code|] eqn:E; simpl.
  - repeat split; auto; discriminate.
  - destruct (includes (entries d) file) eqn:I; simpl.
    + repeat split; auto.
      * intros g H. apply remove_In in H. tauto.
      * intros g H Hne. apply remove_In. tauto.
      * intros _ H. apply remove_In in H. tauto.
    + repeat split; auto. intros _. apply includes_not_In. exact I.
Qed.

Lemma rmAll_spec (files : list jsstring) (d : Dir) :
  let d' := fst (rmAll files d) in
  readdirError d' = readdirError d /\
  rmError d' = rmError d /\
  (forall g, In g (entries d') -> In g (entries d)) /\
  (forall g, In g (entries d) -> ~ In g files -> In g (entries d')) /\
  (forall g, In g files -> rmError d g = None -> ~ In g (entries d')).
Proof.
  revert d; induction files as [|file rest IH]; intros d; simpl.
  - repeat split; auto.
  - pose proof (rm_spec file d) as R. destruct (rm file d) as [err d1].
    simpl in R. destruct R as (R1 & R2 & R3 & R4 & R5).
    pose proof (IH d1) as Q. destruct (rmAll rest d1) as [d2 evs].
    simpl in Q |- *. destruct Q as (Q1 & Q2 & Q3 & Q4 & Q5).
    repeat split.
    + congruence.
    + congruence.
    + auto.
    + intros g Hg Hn. apply Q4; [apply R4; [exact Hg|]|]; intuition congruence.
    + intros g [<-|Hg] He.
      * intros H. apply Q3 in H. exact (R5 He H).
      * apply Q5; [exact Hg | congruence].
Qed.

(** The events of the removals: one per file given, and nothing else. *)
Lemma rmAll_events (files : list jsstring) (d : Dir) :
  (forall f, In f files <-> exists ok, In (Rm f ok) (snd (rmAll files d))) /\
  Forall (fun ev => exists f ok, ev = Rm f ok) (snd (rmAll files d)).
Proof.
  revert d; induction files as [|file rest IH]; intros d; simpl.
  - split; [|constructor]. intros f; split; [intros [] | intros (ok & [])].
  - destruct (rm file d) as [err d1]. specialize (IH d1).
    destruct (rmAll rest d1) as [d2 evs]. simpl in *. destruct IH as [E F].
    split; [|constructor; [eauto | exact F]].
    intros f; split.
    + intros [<-|H]; [eexists; left; reflexivity|].
      apply E in H. destruct H as (ok & H). exists ok. right. exact H.
    + intros (ok & [H|H]); [injection H as -> _; left; reflexivity|].
      right. apply E. exists ok. exact H.
Qed.

Section Guard.

Variable X : Type.
Variable T : Type.

Lemma backupsOf_spec (project : jsstring) (files : list jsstring) :
  backupsOf project files = filter (isBackupOf project) files.
Proof.
  unfold backupsOf. rewrite backupRegexEng_compiles, backupRegexJpn_compiles.
  reflexivity.
Qed.

(** The run, with the patterns compiled and the first listing done. *)
Lemma doWithBackupCheck_unfold (project : jsstring) (task : Task X T) (d : Dir) :
  readdirError d = None ->
  doWithBackupCheck project task d =
  let originalBackupFiles := backupsOf project (entries d) in
  let (taskPromise, d1) := task d in
  let '(err, d2, evs) :=
    cleanup (seqs (engTerms (projectName project)))
            (seqs (jpnTerms (projectName project))) originalBackupFiles d1 in
  {| returned := taskPromise;
     detached := Some (match err with
                       | Some code => Rejected (Errno code)
                       | None => taskPromise
                       end);
     dirAfter := d2;
     events := Readdir true :: TaskRun :: Returned :: evs |}.
Proof.
  intros H. unfold doWithBackupCheck.
  rewrite backupsOf_spec.
  rewrite backupRegexEng_compiles, backupRegexJpn_compiles.
  unfold readdir. rewrite H. reflexivity.
Qed.

(** The callback removes new backups only; when the listing succeeds
    and the counts differ, it tries to remove each of them. *)
Lemma cleanup_spec (eng jpn : Regex) (orig : list jsstring) (d1 : Dir) :
  let '(err, d2, evs) := cleanup eng jpn orig d1 in
  (forall g, In g (entries d1) -> In g (entries d2) \/
             (isBackup eng jpn g = true /\ ~ In g orig)) /\
  (readdirError d1 = None ->
   length orig <> length (filter (isBackup eng jpn) (entries d1)) ->
   forall g, isBackup eng jpn g = true -> In g (entries d1) -> ~ In g orig ->
             (exists ok, In (Rm g ok) evs) /\
             (rmError d1 g = None -> ~ In g (entries d2))) /\
  (forall code, readdirError d1 = Some code -> err = Some code /\ d2 = d1) /\
  (readdirError d1 = None -> err = None) /\
  Forall (fun ev => exists ok, ev = Readdir ok \/ exists f, ev = Rm f ok) evs.
Proof.
  unfold cleanup, readdir.
  destruct (readdirError d1) as [code|] eqn:E.
  - repeat split; auto; try discriminate; try congruence.
    repeat constructor. exists false. left. reflexivity.
  - set (after := filter (isBackup eng jpn) (entries d1)).
    destruct (Nat.eqb_spec (length orig) (length after)) as [L|L]; simpl.
    + repeat split; auto; try discriminate; try contradiction.
      repeat constructor. exists true. left. reflexivity.
    + set (new := filter (fun b => negb (includes orig b)) after).
      pose proof (rmAll_spec new d1) as R.
      pose proof (rmAll_events new d1) as V.
      destruct (rmAll new d1) as [d2 evs]. simpl in R, V.
      destruct R as (_ & _ & _ & R4 & R5). destruct V as (V1 & V2).
      assert (Hnew : forall g, In g new <->
                 In g (entries d1) /\ isBackup eng jpn g = true /\ ~ In g orig).
      { intros g. unfold new, after. rewrite !filter_In, negb_true_iff.
        rewrite includes_not_In. tauto. }
      split; [|split; [|split; [|split]]]; try discriminate.
      * intros g Hg.
        destruct (in_dec (list_eq_dec N.eq_dec) g new) as [I|I].
        -- right. apply Hnew in I. tauto.
        -- left. apply R4; assumption.
      * intros _ _ g Hb Hg Hn.
        assert (I : In g new) by (apply Hnew; tauto).
        split.
        -- apply V1 in I. destruct I as (ok & I). exists ok. right. exact I.
        -- intros He. apply R5; assumption.
      * reflexivity.
      * constructor; [exists true; left; reflexivity|].
        eapply Forall_impl; [|exact V2]. simpl.
        intros ev (f & ok & ->). exists ok. right. exists f. reflexivity.
Qed.

End Guard.


(** C4, as amended: when the directory can be listed before the task
    starts, the returned promise settles as the task's own promise does,
    whatever the clean-up meets; it settles before anything of the
    clean-up completes; and a failed listing in the clean-up rejects
    only the promise nobody holds.  When the directory cannot be listed
    before the task starts, the returned promise rejects with that
    failure and the task is not started. *)
Theorem doWithBackupCheck_returns_task_promise (X T : Type)
        (project : jsstring) (task : Task X T) (d : Dir) :
  let run := doWithBackupCheck project task d in
  (readdirError d = None ->
   returned run = fst (task d) /\
   (exists evs,
       events run = [Readdir true; TaskRun; Returned] ++ evs /\
       Forall (fun ev => exists ok, ev = Readdir ok \/ exists f, ev = Rm f ok) evs) /\
   (forall code, readdirError (snd (task d)) = Some code ->
                 detached run = Some (Rejected (Errno code))) /\
   (readdirError (snd (task d)) = None -> detached run = Some (fst (task d)))) /\
  (forall code, readdirError d = Some code ->
                returned run = Rejected (Errno code) /\
                detached run = None /\
                dirAfter run = d /\
                events run = [Readdir false; Returned]).
Proof.
  intros run. subst run. split.
  - intros E. rewrite doWithBackupCheck_unfold by exact E.
    destruct (task d) as [p d1]. cbn [fst snd].
    pose proof (cleanup_spec (seqs (engTerms (projectName project)))
                             (seqs (jpnTerms (projectName project)))
                             (backupsOf project (entries d)) d1) as C.
    destruct (cleanup _ _ _ d1) as [[err d2] evs].
    destruct C as (_ & _ & C3 & C4 & C5). cbn [returned events detached].
    repeat split.
    + exists evs. split; [reflexivity | exact C5].
    + intros code H. destruct (C3 code H) as [-> _]. reflexivity.
    + intros H. rewrite (C4 H). reflexivity.
  - intros code E. unfold doWithBackupCheck.
    rewrite backupRegexEng_compiles, backupRegexJpn_compiles.
    unfold readdir. rewrite E. repeat split.
Qed.

End BackupGuardTheorems.

(** Facts about the runs for the project [/ws/Foo.ewp]. *)
Module BackupRuns.

Import BackupGuard BackupGuardSpec Fs JsString JsStringFacts.
Import BackupGuardTheorems BackupScenario.






(** C4, counterexample: when the directory cannot be listed at the
    start, the returned promise rejects with that failure although the
    task would have fulfilled. *)
Lemma unlistable_directory_rejects :
  ~ settles_as_the_task project backingUp unlistable.
Proof. unfold settles_as_the_task. vm_compute. discriminate. Qed.

(** The returned promise fulfils with the task's value although the
    listing of the clean-up fails; that failure rejects the detached
    promise. *)
Lemma doWithBackupCheck_returns_task_promise_witness :
  readdirError before = None /\
  let run := doWithBackupCheck project backingUpUnlistable before in
  returned run = Fulfilled 7 /\
  detached run = Some (Rejected (Errno (js "EACCES"))).
Proof.
  split; [reflexivity|].
  destruct (doWithBackupCheck_returns_task_promise
              project backingUpUnlistable before) as (Listed & _).
  destruct (Listed eq_refl) as (R & _ & D & _).
  split; [exact R | exact (D (js "EACCES") eq_refl)].
Defined.

End BackupRuns.

(* ===================================================================== *)
(** * main.ts: facts about the callbacks *)
(* ===================================================================== *)

Module MainFacts.

Import Main MainSpec JsString JsStringFacts.

Section Sorting.

Variable A : Type.
Variable compare : A -> A -> Z.

Lemma insert_perm (x : A) (l : list A) : Permutation (insert compare x l) (x :: l).
Proof.
  induction l as [|y l IH]; simpl; [reflexivity|].
  destruct (compare x y <=? 0)%Z; [reflexivity|].
  rewrite IH. apply perm_swap.
Qed.

Lemma sort_perm (l : list A) : Permutation (sort compare l) l.
Proof.
  induction l as [|x l IH]; simpl; [reflexivity|].
  rewrite insert_perm, IH. reflexivity.
Qed.

Hypothesis compare_total : forall a b, (compare a b > 0)%Z -> (compare b a <= 0)%Z.
Hypothesis compare_trans :
  forall a b c, (compare a b <= 0)%Z -> (compare b c <= 0)%Z -> (compare a c <= 0)%Z.



End Sorting.

(** Sorting through a projection. *)
Lemma map_insert {A B : Type} (f : A -> B) (cmp : B -> B -> Z) (x : A) (l : list A) :
  map f (insert (fun a b => cmp (f a) (f b)) x l) = insert cmp (f x) (map f l).
Proof.
  induction l as [|y l IH]; simpl; [reflexivity|].
  destruct (cmp (f x) (f y) <=? 0)%Z; simpl; [reflexivity|].
  rewrite IH. reflexivity.
Qed.

Lemma map_sort {A B : Type} (f : A -> B) (cmp : B -> B -> Z) (l : list A) :
  map f (sort (fun a b => cmp (f a) (f b)) l) = sort cmp (map f l).
Proof.
  induction l as [|x l IH]; simpl; [reflexivity|].
  rewrite map_insert, IH. reflexivity.
Qed.

Section Callbacks.

Context {host : Host}.

Lemma advance_0 (st : State) : advance st [] 0 = st.
Proof.
  destruct st; unfold advance; simpl. rewrite app_nil_r, Nat.add_0_r. reflexivity.
Qed.

Lemma advance_advance (st : State) e1 n1 e2 n2 :
  advance (advance st e1 n1) e2 n2 = advance st (e1 ++ e2) (n1 + n2).
Proof.
  unfold advance; simpl. rewrite <- app_assoc, Nat.add_assoc. reflexivity.
Qed.

Lemma fresh_content parse files n :
  map content (fresh parse files n) = parsed parse files.
Proof.
  revert n; induction files as [|file rest IH]; intros n; [reflexivity|].
  simpl. unfold parsed in *. simpl.
  destruct (parse file); simpl; rewrite IH; reflexivity.
Qed.

Lemma parseEach_spec kind parse files acc st :
  parseEach kind parse files acc st =
  (Normal (acc ++ fresh parse files (nextOid st)),
   advance st (reports kind parse files) (length (fresh parse files (nextOid st)))).
Proof.
  revert acc st; induction files as [|file rest IH]; intros acc st.
  - simpl. unfold ret. rewrite app_nil_r, advance_0. reflexivity.
  - cbn [parseEach]. unfold bind at 1. unfold tryCatch, bind, construct, ret, emit.
    cbn [fresh reports flat_map].
    destruct (parse file) as [c|e].
    + rewrite IH. cbn [nextOid length]. rewrite <- app_assoc. cbn [app].
      f_equal. unfold advance.
      cbn [workspace project fallbackProjects effects nextOid].
      f_equal. lia.
    + rewrite IH. cbn [nextOid]. f_equal. unfold advance.
      cbn [workspace project fallbackProjects effects nextOid].
      rewrite <- !app_assoc. reflexivity.
Qed.

(** The workspace callback: every delivery ends in one [set]. *)
Lemma ewwSubscribe_spec parse files st :
  let ws := fresh parse files (nextOid st) in
  ewwSubscribe parse files st =
  (Normal tt,
   {| workspace := Model_set (sort byName ws) (workspace st);
      project := project st;
      fallbackProjects := fallbackProjects st;
      effects := effects st ++ reports (js "workspace") parse files ++
                 [LoggerDebug (foundMessage (length ws)
                                 (js " workspace(s) in the VS Code workspace"));
                  WorkspaceSet (sort byName ws)];
      nextOid := nextOid st + length ws |}).
Proof.
  intros ws. unfold ewwSubscribe, bind. rewrite parseEach_spec.
  cbn [app]. fold ws. unfold emit, workspaceSet, advance, foundMessage.
  cbn [workspace project fallbackProjects effects nextOid].
  rewrite <- !app_assoc. reflexivity.
Qed.

(** The project callback: the parsed list replaces the fallback
    projects unless both serialize to the same text. *)
Lemma ewpSubscribe_spec parse files st :
  let kept := filter (fun file => negb (isIgnoredFile file)) files in
  let found := fresh parse kept (nextOid st) in
  let projects := sort byName found in
  ewpSubscribe parse files st =
  (Normal tt,
   if eqb (jsonOf projects) (jsonOf (fallbackProjects st))
   then advance st (reports (js "project") parse kept) (length found)
   else
     {| workspace := workspace st;
        project := project st;
        fallbackProjects := projects;
        effects := effects st ++ reports (js "project") parse kept ++
                   [LoggerDebug (foundMessage (length projects)
                                   (js " project(s) in the VS Code workspace"));
                    SetFallbackProjects projects];
        nextOid := nextOid st + length found |}).
Proof.
  intros kept found projects. unfold ewpSubscribe, bind. fold kept.
  rewrite parseEach_spec. cbn [app]. fold found. fold projects.
  unfold gets. cbn [fallbackProjects advance].
  destruct (eqb (jsonOf projects) (jsonOf (fallbackProjects st))); cbn [negb].
  - reflexivity.
  - unfold emit, setFallbackProjects, advance, foundMessage.
    cbn [workspace project fallbackProjects effects nextOid].
    rewrite <- !app_assoc. reflexivity.
Qed.

Lemma sort_byName_content (l : list Entity) :
  map content (sort byName l) = sort byContentName (map content l).
Proof. apply (map_sort content byContentName). Qed.

Lemma setCalls_app (e1 e2 : list Effect) :
  setCalls (e1 ++ e2) = setCalls e1 + setCalls e2.
Proof. unfold setCalls. rewrite filter_app, length_app. reflexivity. Qed.

Lemma setCalls_reports kind parse files : setCalls (reports kind parse files) = 0.
Proof.
  unfold setCalls, reports. induction files as [|file rest IH]; [reflexivity|].
  cbn [flat_map]. rewrite filter_app, length_app, IH.
  destruct (parse file); reflexivity.
Qed.

(** Every delivery to the workspace callback calls [set] once more. *)
Lemma ewwSubscribe_always_sets parse files st :
  setCalls (effects (snd (ewwSubscribe parse files st))) = S (setCalls (effects st)).
Proof.
  rewrite ewwSubscribe_spec. cbn [snd effects].
  rewrite !setCalls_app, setCalls_reports. cbn. lia.
Qed.

(** The serialized list the project callback compares depends on the
    files and their contents only. *)
Lemma jsonOf_sorted_fresh parse files n :
  jsonOf (sort byName (fresh parse files n)) =
  stringify (sort byContentName (parsed parse files)).
Proof. unfold jsonOf. rewrite sort_byName_content, fresh_content. reflexivity. Qed.

(** After the project callback, the fallback projects serialize to the
    sorted parsed files. *)
Lemma ewpSubscribe_json parse files st :
  jsonOf (fallbackProjects (snd (ewpSubscribe parse files st))) =
  stringify (sort byContentName
               (parsed parse (filter (fun file => negb (isIgnoredFile file)) files))).
Proof.
  rewrite ewpSubscribe_spec. cbn [snd].
  match goal with |- context [eqb ?a ?b] => destruct (eqb_spec a b) as [E|E] end.
  - cbn [advance fallbackProjects]. rewrite <- E. apply jsonOf_sorted_fresh.
  - cbn [fallbackProjects]. apply jsonOf_sorted_fresh.
Qed.

(** A second delivery of the same files to the project callback does
    not call [setFallbackProjects] again. *)
Lemma ewpSubscribe_same_files_no_second_set parse files st :
  let st1 := snd (ewpSubscribe parse files st) in
  let st2 := snd (ewpSubscribe parse files st1) in
  setCalls (effects st2) = setCalls (effects st1) /\
  fallbackProjects st2 = fallbackProjects st1.
Proof.
  intros st1 st2. subst st2.
  pose proof (ewpSubscribe_json parse files st) as J. fold st1 in J.
  rewrite ewpSubscribe_spec. cbn [snd].
  rewrite jsonOf_sorted_fresh, J, eqb_refl.
  cbn [advance effects fallbackProjects].
  rewrite setCalls_app, setCalls_reports. split; [lia | reflexivity].
Qed.

Section Modified.

Variable others : State -> State.

Lemma ewwOnFileModified_untracked parse file st :
  trackedWorkspace file st = None ->
  ewwOnFileModified others parse file st = (Normal tt, st).
Proof.
  unfold trackedWorkspace. intros H.
  unfold ewwOnFileModified, bind, gets. rewrite H. reflexivity.
Qed.

Lemma ewpOnFileModified_untracked parse file st :
  trackedProject file st = None ->
  ewpOnFileModified others parse file st = (Normal tt, st).
Proof.
  unfold trackedProject. intros H.
  unfold ewpOnFileModified, bind, gets. rewrite H. reflexivity.
Qed.

(** A parse error leaves the workspace callback as a thrown value. *)
Lemma ewwOnFileModified_parse_error parse file st old e :
  trackedWorkspace file st = Some old ->
  parse file = inr e ->
  ewwOnFileModified others parse file st = (Throw e, st).
Proof.
  unfold trackedWorkspace. intros H P.
  unfold ewwOnFileModified, bind, gets, construct. rewrite H, P. reflexivity.
Qed.

Lemma ewpOnFileModified_parse_error parse file st old e :
  trackedProject file st = Some old ->
  parse file = inr e ->
  ewpOnFileModified others parse file st =
  (Throw e, others (noted (ReloadProject old) st)).
Proof.
  unfold trackedProject. intros H P.
  unfold ewpOnFileModified, bind, gets, construct, emit, await.
  rewrite H, P. reflexivity.
Qed.

Lemma ewwOnFileModified_changed parse file st old c :
  trackedWorkspace file st = Some old ->
  parse file = inl c ->
  workspaceEqual (content old) c = false ->
  let new := {| oid := nextOid st; content := c |} in
  let resumed := others (bump st) in
  ewwOnFileModified others parse file st =
  workspaceSet (replaced old new (items (workspace resumed))) resumed.
Proof.
  unfold trackedWorkspace. intros H P Q. cbv zeta.
  unfold ewwOnFileModified, bind, gets, construct, await.
  rewrite H, P. cbn [content]. rewrite Q. reflexivity.
Qed.

Lemma ewpOnFileModified_changed parse file st old c :
  trackedProject file st = Some old ->
  parse file = inl c ->
  projectEqual (content old) c = false ->
  let resumed := others (noted (ReloadProject old) st) in
  let new := {| oid := nextOid resumed; content := c |} in
  ewpOnFileModified others parse file st =
  projectSet (replaced old new (items (project resumed))) (bump resumed).
Proof.
  unfold trackedProject. intros H P Q. cbv zeta.
  unfold ewpOnFileModified, bind, gets, construct, emit, await.
  rewrite H, P. cbn [content]. rewrite Q. reflexivity.
Qed.

Lemma replaced_nth (old new : Entity) (l : list Entity) :
  length (replaced old new l) = length l /\
  forall i e, nth_error l i = Some e ->
              nth_error (replaced old new l) i = Some (if same e old then new else e).
Proof.
  unfold replaced. split; [apply length_map|].
  intros i e H. rewrite nth_error_map, H. reflexivity.
Qed.

End Modified.

End Callbacks.

End MainFacts.

(* ===================================================================== *)
(** * Facts about the orders on strings *)
(* ===================================================================== *)

Module CollationFacts.

Import Collation.
Local Open Scope N_scope.

Lemma lexCompare_eq (a b : jsstring) : lexCompare a b = Eq <-> a = b.
Proof.
  revert b; induction a as [|x a IH]; intros [|y b]; simpl;
    try (split; congruence).
  destruct (N.compare_spec x y) as [->|H|H].
  - rewrite IH. split; congruence.
  - split; [discriminate|]. intros E; injection E as -> _. lia.
  - split; [discriminate|]. intros E; injection E as -> _. lia.
Qed.

Lemma lexCompare_refl (a : jsstring) : lexCompare a a = Eq.
Proof. apply lexCompare_eq. reflexivity. Qed.







End CollationFacts.

(* ===================================================================== *)
(** * main.ts: the reconciliation properties *)
(* ===================================================================== *)

Module MainTheorems.

Import Main MainSpec MainFacts JsString JsStringFacts.

Section Properties.

Context {host : Host}.

(** C5: the project callback ends normally whatever fails to parse; the
    entities it builds are those of the files that are not ignored and
    parse, in order; for every file that does not parse, and only for
    those, it logs one error and shows one message; and afterwards the
    fallback projects serialize to the sorted list of the parsed files,
    being that list itself unless the old list serialized the same. *)
Theorem ewpSubscribe_isolates_parse_failures
        (parse : jsstring -> Content + jsstring) (files : list jsstring)
        (st : State) :
  let kept := filter (fun file => negb (isIgnoredFile file)) files in
  let found := fresh parse kept (nextOid st) in
  let result := ewpSubscribe parse files st in
  fst result = Normal tt /\
  map content found = parsed parse kept /\
  (forall c, In c (parsed parse kept) <->
             exists file, In file kept /\ parse file = inl c) /\
  jsonOf (fallbackProjects (snd result)) = jsonOf (sort byName found) /\
  (jsonOf (sort byName found) <> jsonOf (fallbackProjects st) ->
   fallbackProjects (snd result) = sort byName found) /\
  exists rest,
    effects (snd result) = effects st ++ reports (js "project") parse kept ++ rest /\
    Forall notReport rest.
Proof.
  intros kept found result.
  assert (J : jsonOf (fallbackProjects (snd result)) = jsonOf (sort byName found)).
  { unfold result. rewrite ewpSubscribe_json. symmetry.
    apply jsonOf_sorted_fresh. }
  unfold result in *. rewrite ewpSubscribe_spec in *. fold kept found in J |- *.
  cbn [fst snd] in *.
  split; [reflexivity|]. split; [apply fresh_content|]. split.
  { intros c. unfold parsed. rewrite in_flat_map. split.
    - intros (file & Hf & Hc). exists file. split; [exact Hf|].
      destruct (parse file) as [c'|e]; [|destruct Hc].
      destruct Hc as [<-|[]]. reflexivity.
    - intros (file & Hf & Hc). exists file. split; [exact Hf|].
      rewrite Hc. left. reflexivity. }
  split; [exact J|].
  destruct (eqb_spec (jsonOf (sort byName found)) (jsonOf (fallbackProjects st)))
    as [E|E].
  - split; [congruence|]. exists []. split; [|constructor].
    rewrite app_nil_r. reflexivity.
  - split; [reflexivity|]. eexists. split; [reflexivity|].
    repeat constructor.
Qed.



(** C8: when no tracked entity has the path of the modified file, the
    callbacks change nothing.  When one has and the file parses to
    something that is not equal to it, the callback ends normally with
    one more effect, a [set] whose list is the model's list as read on
    resuming, with the new object at every position that held the old
    one and every other position unchanged. *)
Theorem onFileModified_replaces_in_place
        (others : State -> State)
        (parse : jsstring -> Content + jsstring) (file : jsstring) (st : State) :
  (trackedWorkspace file st = None ->
   ewwOnFileModified others parse file st = (Normal tt, st)) /\
  (trackedProject file st = None ->
   ewpOnFileModified others parse file st = (Normal tt, st)) /\
  (forall old c,
      trackedWorkspace file st = Some old ->
      parse file = inl c ->
      workspaceEqual (content old) c = false ->
      let new := {| oid := nextOid st; content := c |} in
      let resumed := others (bump st) in
      let result := ewwOnFileModified others parse file st in
      fst result = Normal tt /\
      effects (snd result) =
        effects resumed ++ [WorkspaceSet (items (workspace (snd result)))] /\
      length (items (workspace (snd result))) = length (items (workspace resumed)) /\
      forall i e, nth_error (items (workspace resumed)) i = Some e ->
                  nth_error (items (workspace (snd result))) i =
                  Some (if same e old then new else e)) /\
  (forall old c,
      trackedProject file st = Some old ->
      parse file = inl c ->
      projectEqual (content old) c = false ->
      let resumed := others (noted (ReloadProject old) st) in
      let new := {| oid := nextOid resumed; content := c |} in
      let result := ewpOnFileModified others parse file st in
      fst result = Normal tt /\
      effects (snd result) =
        effects resumed ++ [ProjectSet (items (project (snd result)))] /\
      length (items (project (snd result))) = length (items (project resumed)) /\
      forall i e, nth_error (items (project resumed)) i = Some e ->
                  nth_error (items (project (snd result))) i =
                  Some (if same e old then new else e)).
Proof.
  split; [apply ewwOnFileModified_untracked|].
  split; [apply ewpOnFileModified_untracked|].
  split.
  - intros old c H P Q new resumed result. subst result.
    rewrite (ewwOnFileModified_changed others parse file st H P Q).
    fold new resumed. unfold workspaceSet.
    cbn [fst snd effects workspace Model_set items].
    destruct (replaced_nth old new (items (workspace resumed))) as [L N].
    repeat split; assumption.
  - intros old c H P Q resumed new result. subst result.
    rewrite (ewpOnFileModified_changed others parse file st H P Q).
    fold resumed new. unfold projectSet, bump.
    cbn [fst snd effects project Model_set items].
    destruct (replaced_nth old new (items (project resumed))) as [L N].
    repeat split; assumption.
Qed.

End Properties.

End MainTheorems.

(** Facts about the runs in the VS Code workspace [/ws]. *)
Module WatcherRuns.

Import Main MainSpec MainFacts MainTheorems JsString JsStringFacts.
Import Collation CollationFacts WatcherScenario.

(** C2: the workspace callback calls [set] again when the same files
    with the same contents are delivered a second time, although the
    list it passes serializes to the same text as the one the model
    holds; the project callback, given the same files twice, replaces
    the fallback projects once. *)
Theorem ewwSubscribe_sets_again_for_unchanged_files :
  let files := [js "/ws/A.eww"] in
  let st1 := snd (ewwSubscribe oneWorkspace files start) in
  let st2 := snd (ewwSubscribe oneWorkspace files st1) in
  let projects := [js "/ws/Good.ewp"; js "/ws/Corrupt.ewp"] in
  let ps1 := snd (ewpSubscribe goodAndCorrupt projects start) in
  let ps2 := snd (ewpSubscribe goodAndCorrupt projects ps1) in
  setCalls (effects st1) = 1 /\
  setCalls (effects st2) = 2 /\
  jsonOf (items (workspace st2)) = jsonOf (items (workspace st1)) /\
  setCalls (effects ps1) = 1 /\
  setCalls (effects ps2) = 1.
Proof. vm_compute. repeat split. Qed.

(** C3: when the modified file of a tracked workspace or project does
    not parse, the callback ends with the parse error as a thrown value
    and nothing is logged or shown; the model's list stays as it was.
    The subscribe callback, given the same file, logs and shows the
    error and ends normally. *)
Theorem onFileModified_parse_error_escapes :
  trackedWorkspace (js "/ws/A.eww") tracking <> None /\
  ewwOnFileModified undisturbed oneWorkspaceCorrupt (js "/ws/A.eww") tracking
  = (Throw unexpectedEnd, tracking) /\
  trackedProject (js "/ws/P.ewp") trackingProject <> None /\
  ewpOnFileModified undisturbed projectCorrupt (js "/ws/P.ewp") trackingProject
  = (Throw unexpectedEnd, noted (ReloadProject trackedP) trackingProject) /\
  (let result := ewwSubscribe oneWorkspaceCorrupt [js "/ws/A.eww"] start in
   fst result = Normal tt /\
   In (LoggerError couldNotParseA) (effects (snd result)) /\
   In (ShowErrorMessage couldNotParseA) (effects (snd result))).
Proof.
  repeat split; try (vm_compute; discriminate); try (vm_compute; reflexivity).
  - left. vm_compute. reflexivity.
  - right. left. vm_compute. reflexivity.
Qed.

(** The specification's example: of [Good.ewp] and [Corrupt.ewp] only
    the first is among the fallback projects afterwards, and the
    failure is logged once and shown once. *)
Lemma ewpSubscribe_isolates_parse_failures_witness :
  let files := [js "/ws/Good.ewp"; js "/ws/Corrupt.ewp"] in
  let result := ewpSubscribe goodAndCorrupt files start in
  fst result = Normal tt /\
  map content (fallbackProjects (snd result)) = [good] /\
  filter (fun e => negb (isSet e)) (effects (snd result)) =
  [LoggerError couldNotParseCorrupt; ShowErrorMessage couldNotParseCorrupt;
   LoggerDebug (js "Found 1 project(s) in the VS Code workspace")].
Proof.
  intros files result.
  destruct (ewpSubscribe_isolates_parse_failures (host := host)
              goodAndCorrupt files start)
    as (N & _ & _ & _ & F & _).
  fold result in N, F.
  split; [exact N|]. split.
  - rewrite F; [vm_compute; reflexivity | vm_compute; discriminate].
  - vm_compute. reflexivity.
Defined.



(** With [A.eww] and [B.eww] tracked: a change of an untracked file
    changes nothing; a change of [B.eww] puts the new object where the
    old one was and keeps the object of [A.eww]. *)
Lemma onFileModified_replaces_in_place_witness :
  let result :=
    ewwOnFileModified undisturbed twoWorkspacesChanged (js "/ws/B.eww") tracking in
  ewwOnFileModified undisturbed twoWorkspacesChanged (js "/ws/C.eww") tracking
  = (Normal tt, tracking) /\
  fst result = Normal tt /\
  nth_error (items (workspace (snd result))) 0
  = nth_error (items (workspace tracking)) 0 /\
  nth_error (items (workspace (snd result))) 1
  = Some {| oid := 2; content := changedB |} /\
  length (items (workspace (snd result))) = 2.
Proof.
  intros result.
  destruct (onFileModified_replaces_in_place (host := host)
              undisturbed twoWorkspacesChanged (js "/ws/C.eww") tracking)
    as (U & _).
  destruct (onFileModified_replaces_in_place (host := host)
              undisturbed twoWorkspacesChanged (js "/ws/B.eww") tracking)
    as (_ & _ & W & _).
  specialize (W trackedB changedB eq_refl eq_refl eq_refl).
  cbv zeta in W. fold result in W. destruct W as (N & _ & L & P).
  split; [exact (U eq_refl)|]. split; [exact N|].
  split; [|split].
  - rewrite (P 0%nat trackedA eq_refl). reflexivity.
  - rewrite (P 1%nat trackedB eq_refl). reflexivity.
  - rewrite L. reflexivity.
Defined.

End WatcherRuns.

(* ===================================================================== *)
(** * More about the matcher: what a continuation is given *)
(* ===================================================================== *)

Module RegExpMore.

Import RegExp Pattern RegExpFacts RegExpSpec.

Lemma rmatch_Star (r : Regex) i s k :
  rmatch (Star r) i s k = star_loop (rmatch r) k (S (length s)) i s.
Proof. reflexivity. Qed.

Lemma star_loop_S body k fuel i s :
  star_loop body k (S fuel) i s =
  body i s (fun j u => Nat.ltb (length u) (length s) && star_loop body k fuel j u)
  || k i s.
Proof. reflexivity. Qed.

(** A star may stop at once. *)
Lemma star_loop_stop body k fuel i s :
  k i s = true -> star_loop body k fuel i s = true.
Proof.
  intros H. destruct fuel; [exact H|].
  rewrite star_loop_S, H. apply orb_true_r.
Qed.

(** The continuation of a match is only ever given a suffix of the
    input, at the offset of that suffix. *)
Lemma rmatch_suffix (r : Regex) :
  forall i s k,
    rmatch r i s k = true ->
    exists pre u, s = pre ++ u /\ k (length pre + i) u = true.
Proof.
  assert (One : forall p i s k,
             one p i s k = true ->
             exists pre u, s = pre ++ u /\ k (length pre + i) u = true).
  { intros p i s k H. unfold one in H. destruct s as [|x s]; [discriminate|].
    apply andb_true_iff in H. destruct H as [_ H].
    exists [x], s. split; [reflexivity | exact H]. }
  assert (Glue : forall (k : nat -> jsstring -> bool) i (p1 p2 u2 : jsstring),
             k (length p2 + (length p1 + i)) u2 = true ->
             exists pre u, (p1 ++ p2) ++ u2 = pre ++ u /\
                           k (length pre + i) u = true).
  { intros k i p1 p2 u2 H. exists (p1 ++ p2), u2. split; [reflexivity|].
    rewrite length_app.
    replace (length p1 + length p2 + i) with (length p2 + (length p1 + i)) by lia.
    exact H. }
  induction r as [|c| | | | | |r1 IH1 r2 IH2|r1 IH1 r2 IH2|r1 IH1|r1 IH1];
    intros i s k H.
  - exists [], s. auto.
  - exact (One _ _ _ _ H).
  - exact (One _ _ _ _ H).
  - exact (One _ _ _ _ H).
  - exact (One _ _ _ _ H).
  - cbn [rmatch] in H. apply andb_true_iff in H. destruct H as [_ H].
    exists [], s. auto.
  - cbn [rmatch] in H. destruct s; [|discriminate]. exists [], []. auto.
  - cbn [rmatch] in H. apply IH1 in H. destruct H as (p1 & u1 & -> & H).
    apply IH2 in H. destruct H as (p2 & u2 & -> & H).
    rewrite app_assoc. apply Glue. exact H.
  - cbn [rmatch] in H. apply orb_true_iff in H.
    destruct H as [H|H]; [apply IH1 | apply IH2]; exact H.
  - rewrite rmatch_Star in H. revert H. generalize (S (length s)) as fuel.
    intros fuel. revert i s.
    induction fuel as [|fuel IHf]; intros i s H.
    + exists [], s. auto.
    + rewrite star_loop_S in H. apply orb_true_iff in H.
      destruct H as [H|H]; [|exists [], s; auto].
      apply IH1 in H. destruct H as (p1 & u1 & -> & H).
      apply andb_true_iff in H. destruct H as [_ H].
      apply IHf in H. destruct H as (p2 & u2 & -> & H).
      rewrite app_assoc. apply Glue. exact H.
  - apply IH1. exact H.
Qed.

(** The same through the leading terms of a sequence. *)
Lemma rmatch_seqs_suffix (ts rest : list Regex) :
  forall i s k,
    rmatch (seqs (ts ++ rest)) i s k = true ->
    exists pre u, s = pre ++ u /\
                  rmatch (seqs rest) (length pre + i) u k = true.
Proof.
  induction ts as [|t ts IH]; intros i s k H.
  - exists [], s. auto.
  - change ((t :: ts) ++ rest) with (t :: (ts ++ rest)) in H.
    rewrite rmatch_seqs_cons in H.
    apply rmatch_suffix in H. destruct H as (p1 & u1 & -> & H).
    apply IH in H. destruct H as (p2 & u2 & -> & H).
    exists (p1 ++ p2), u2. rewrite <- app_assoc. split; [reflexivity|].
    rewrite length_app.
    replace (length p1 + length p2 + i) with (length p2 + (length p1 + i)) by lia.
    exact H.
Qed.

(** A star over a single-unit term takes any run of units the term
    takes. *)
Lemma star_takes (r : Regex) (run : jsstring) :
  Forall (takes r) run ->
  forall v i k,
    k (length run + i) v = true ->
    rmatch (Star r) i (run ++ v) k = true.
Proof.
  intros Hrun v i k H. rewrite rmatch_Star.
  assert (G : forall fuel, length run < fuel ->
                           star_loop (rmatch r) k fuel i (run ++ v) = true).
  { revert i H. induction Hrun as [|c run Hc Hrun IH]; intros i H fuel L.
    - apply star_loop_stop. exact H.
    - destruct fuel as [|fuel]; [inversion L|].
      rewrite star_loop_S. cbn [app]. rewrite Hc.
      replace (Nat.ltb (length (run ++ v)) (length (c :: run ++ v))) with true
        by (symmetry; apply Nat.ltb_lt; cbn [length]; lia).
      cbn [andb]. rewrite IH; [reflexivity | | cbn [length] in L; lia].
      cbn [length] in H. rewrite Nat.add_succ_comm in H. exact H. }
  apply G. rewrite length_app. lia.
Qed.

(** And a plus takes any such run that is not empty. *)
Lemma plus_takes (r : Regex) (run : jsstring) :
  run <> [] -> Forall (takes r) run ->
  forall v i k,
    k (length run + i) v = true ->
    rmatch (Plus r) i (run ++ v) k = true.
Proof.
  intros Hne Hrun v i k H. destruct run as [|c run]; [congruence|].
  inversion Hrun as [|? ? Hc Hrest]; subst.
  unfold Plus. cbn [rmatch app]. rewrite Hc.
  apply star_takes; [exact Hrest|].
  cbn [length] in H. rewrite Nat.add_succ_comm in H. exact H.
Qed.

Lemma takes_Dot c : isLineTerminator c = false -> takes Dot c.
Proof. intros H i s k. cbn. rewrite H. reflexivity. Qed.

Lemma takes_Space c : isSpace c = true -> takes Space c.
Proof. intros H i s k. cbn. rewrite H. reflexivity. Qed.

Lemma takes_Digit c : isDigit c = true -> takes Digit c.
Proof. intros H i s k. cbn. rewrite H. reflexivity. Qed.

End RegExpMore.

(* ===================================================================== *)
(** * Facts about [Path.basename] *)
(* ===================================================================== *)

Module PathFacts.

Import Path UtilsSpec.

Lemma dropWhile_head p c s : p c = false -> dropWhile p (c :: s) = c :: s.
Proof. intros H. simpl. rewrite H. reflexivity. Qed.

Lemma takeWhile_app_stop p (a : jsstring) c b :
  Forall (fun x => p x = true) a -> p c = false ->
  takeWhile p (a ++ c :: b) = a.
Proof.
  intros Ha Hc. induction Ha as [|x a Hx _ IH]; simpl.
  - rewrite Hc. reflexivity.
  - rewrite Hx, IH. reflexivity.
Qed.

Lemma takeWhile_all p (a : jsstring) :
  Forall (fun x => p x = true) a -> takeWhile p a = a.
Proof.
  intros Ha. induction Ha as [|x a Hx _ IH]; simpl; [reflexivity|].
  rewrite Hx, IH. reflexivity.
Qed.

Lemma notSlash_isSep c : notSlash c -> isSep c = false.
Proof. unfold notSlash, isSep. intros H. apply N.eqb_neq. exact H. Qed.

Lemma rev_notSep (file : jsstring) :
  Forall notSlash file -> Forall (fun x => negb (isSep x) = true) (rev file).
Proof.
  intros H. apply Forall_rev. eapply Forall_impl; [|exact H].
  intros c Hc. rewrite (notSlash_isSep Hc). reflexivity.
Qed.

(** The last portion of a path that ends in a file name is that name. *)
Lemma basename_in_dir (dir file : jsstring) :
  file <> [] -> Forall notSlash file ->
  basename (dir ++ Cu.slash :: file) = file.
Proof.
  intros Hne Hfile. unfold basename.
  rewrite rev_app_distr. cbn [rev]. rewrite <- app_assoc. cbn [app].
  assert (Hrev : Forall (fun x => negb (isSep x) = true) (rev file))
    by (apply rev_notSep; exact Hfile).
  destruct (rev file) as [|c rf] eqn:E.
  - exfalso. apply Hne. apply (f_equal (@rev N)) in E.
    rewrite rev_involutive in E. exact E.
  - inversion Hrev as [|? ? Hc Hrf]; subst.
    cbn [app]. rewrite dropWhile_head by (apply negb_true_iff; exact Hc).
    change (c :: rf ++ Cu.slash :: rev dir) with ((c :: rf) ++ Cu.slash :: rev dir).
    rewrite takeWhile_app_stop; [|exact Hrev|reflexivity].
    rewrite <- E. apply rev_involutive.
Qed.

Lemma basename_of_name (file : jsstring) :
  Forall notSlash file -> basename file = file.
Proof.
  intros Hfile. unfold basename.
  assert (Hrev : Forall (fun x => negb (isSep x) = true) (rev file))
    by (apply rev_notSep; exact Hfile).
  destruct (rev file) as [|c rf] eqn:E.
  - apply (f_equal (@rev N)) in E. rewrite rev_involutive in E. subst. reflexivity.
  - inversion Hrev as [|? ? Hc Hrf]; subst.
    rewrite dropWhile_head by (apply negb_true_iff; exact Hc).
    rewrite takeWhile_all by exact Hrev. rewrite <- E. apply rev_involutive.
Qed.

End PathFacts.

(* ===================================================================== *)
(** * BackupUtils.isBackupFile: the names it takes *)
(* ===================================================================== *)

Module BackupNameFacts.

Import RegExp Pattern RegExpFacts RegExpSpec RegExpMore BackupUtils JsString JsStringFacts.
Import Path PathFacts UtilsSpec.

(** Going forward through a match. *)
Lemma lit_then (t : jsstring) (rest : list Regex) i v k :
  rmatch (seqs rest) (length t + i) v k = true ->
  rmatch (seqs (lit t ++ rest)) i (t ++ v) k = true.
Proof. intros H. apply rmatch_lit. exists v. auto. Qed.

Lemma term_then (a : Regex) (rest : list Regex) i s k :
  rmatch a i s (fun j u => rmatch (seqs rest) j u k) = true ->
  rmatch (seqs ([a] ++ rest)) i s k = true.
Proof. intros H. cbn [app]. rewrite rmatch_seqs_cons. exact H. Qed.

Lemma opt_skip (r : Regex) i s k : k i s = true -> rmatch (Opt r) i s k = true.
Proof. intros H. unfold Opt. cbn [rmatch]. rewrite H. apply orb_true_r. Qed.

Lemma opt_take (r : Regex) i s k :
  rmatch r i s k = true -> rmatch (Opt (Group r)) i s k = true.
Proof. intros H. unfold Opt. cbn [rmatch]. rewrite H. reflexivity. Qed.

Lemma test_at_start (r : Regex) (s : jsstring) :
  rmatch r 0 s (fun _ _ => true) = true -> test r s = true.
Proof.
  intros H. unfold test. destruct s; cbn [search]; rewrite H; auto.
Qed.

Lemma space_takes : Forall (takes Space) (js " ").
Proof. constructor; [apply takes_Space; reflexivity | constructor]. Qed.

Lemma digit_notSlash c : digitUnit c -> notSlash c.
Proof.
  unfold digitUnit, notSlash, isDigit. intros H ->. discriminate H.
Qed.

Lemma digits_take (ds : jsstring) : Forall digitUnit ds -> Forall (takes Digit) ds.
Proof. apply Forall_impl. intros c H. apply takes_Digit. exact H. Qed.

Lemma plain_take (n : jsstring) : Forall plainUnit n -> Forall (takes Dot) n.
Proof. apply Forall_impl. intros c [H _]. apply takes_Dot. exact H. Qed.

Lemma plain_notSlash (n : jsstring) : Forall plainUnit n -> Forall notSlash n.
Proof. apply Forall_impl. intros c [_ H]. exact H. Qed.

Lemma js_notSlash (s : jsstring) :
  forallb (fun c => negb (N.eqb c Cu.slash)) s = true -> Forall notSlash s.
Proof.
  intros H. apply Forall_forall. intros c Hc.
  rewrite forallb_forall in H. specialize (H c Hc).
  apply negb_true_iff, N.eqb_neq in H. exact H.
Qed.

(** The English pattern on a name without a counter. *)
Lemma eng_plain (n : jsstring) :
  Forall plainUnit n ->
  test isBackupEng (js "Backup of" ++ n ++ js ".ewp") = true.
Proof.
  intros Hn. apply test_at_start. unfold isBackupEng.
  apply term_then. cbn [rmatch Nat.eqb andb].
  change (js "Backup of" ++ n ++ js ".ewp")
    with (js "Backup" ++ js " " ++ js "of" ++ n ++ js ".ewp" ++ []).
  apply lit_then.
  change ([Plus Space;
           Opt (Group (seqs [Char Cu.lparen; Plus Digit; Char Cu.rparen; Plus Space]))] ++
          lit (js "of") ++ [Star Dot] ++ lit (js ".ewp") ++ [Eol])
    with ([Plus Space] ++
          [Opt (Group (seqs [Char Cu.lparen; Plus Digit; Char Cu.rparen; Plus Space]))] ++
          lit (js "of") ++ [Star Dot] ++ lit (js ".ewp") ++ [Eol]).
  apply term_then. apply plus_takes; [discriminate | exact space_takes|].
  apply term_then. apply opt_skip.
  apply lit_then. apply term_then.
  apply star_takes; [apply plain_take; exact Hn|].
  apply lit_then. reflexivity.
Qed.

(** The English pattern on a name with a counter. *)
Lemma eng_numbered (n ds : jsstring) :
  Forall plainUnit n -> Forall digitUnit ds -> ds <> [] ->
  test isBackupEng (js "Backup (" ++ ds ++ js ") of" ++ n ++ js ".ewp") = true.
Proof.
  intros Hn Hds Hne. apply test_at_start. unfold isBackupEng.
  apply term_then. cbn [rmatch Nat.eqb andb].
  change (js "Backup (" ++ ds ++ js ") of" ++ n ++ js ".ewp")
    with (js "Backup" ++ js " " ++ js "(" ++ ds ++ js ")" ++ js " " ++
          js "of" ++ n ++ js ".ewp" ++ []).
  apply lit_then.
  change ([Plus Space;
           Opt (Group (seqs [Char Cu.lparen; Plus Digit; Char Cu.rparen; Plus Space]))] ++
          lit (js "of") ++ [Star Dot] ++ lit (js ".ewp") ++ [Eol])
    with ([Plus Space] ++
          [Opt (Group (seqs (lit (js "(") ++ [Plus Digit] ++ lit (js ")") ++
                             [Plus Space] ++ [])))] ++
          lit (js "of") ++ [Star Dot] ++ lit (js ".ewp") ++ [Eol]).
  apply term_then. apply plus_takes; [discriminate | exact space_takes|].
  apply term_then. apply opt_take.
  apply lit_then. apply term_then.
  apply plus_takes; [exact Hne | apply digits_take; exact Hds|].
  apply lit_then. apply term_then.
  apply plus_takes; [discriminate | exact space_takes|].
  cbn [seqs seq_of rev rmatch].
  apply lit_then. apply term_then.
  apply star_takes; [apply plain_take; exact Hn|].
  apply lit_then. reflexivity.
Qed.

(** The Japanese pattern on a name without a counter. *)
Lemma jpn_plain (n : jsstring) :
  Forall plainUnit n ->
  test isBackupJpn (n ++ js " " ++ noBackup ++ js ".ewp") = true.
Proof.
  intros Hn. apply test_at_start. unfold isBackupJpn.
  change (n ++ js " " ++ noBackup ++ js ".ewp")
    with (n ++ js " " ++ noBackup ++ js ".ewp" ++ []).
  change ([Bol; Star Dot; Plus Space] ++ lit noBackup ++
          [Opt (Group (seqs [Plus Space; Char Cu.lparen; Plus Digit; Char Cu.rparen]))] ++
          lit (js ".ewp") ++ [Eol])
    with ([Bol] ++ [Star Dot] ++ [Plus Space] ++ lit noBackup ++
          [Opt (Group (seqs [Plus Space; Char Cu.lparen; Plus Digit; Char Cu.rparen]))] ++
          lit (js ".ewp") ++ [Eol]).
  apply term_then. cbn [rmatch Nat.eqb andb].
  apply term_then. apply star_takes; [apply plain_take; exact Hn|].
  apply term_then. apply plus_takes; [discriminate | exact space_takes|].
  apply lit_then. apply term_then. apply opt_skip.
  apply lit_then. reflexivity.
Qed.

(** The Japanese pattern on a name with a counter. *)
Lemma jpn_numbered (n ds : jsstring) :
  Forall plainUnit n -> Forall digitUnit ds -> ds <> [] ->
  test isBackupJpn (n ++ js " " ++ noBackup ++ js " (" ++ ds ++ js ").ewp") = true.
Proof.
  intros Hn Hds Hne. apply test_at_start. unfold isBackupJpn.
  change ([Bol; Star Dot; Plus Space] ++ lit noBackup ++
          [Opt (Group (seqs [Plus Space; Char Cu.lparen; Plus Digit; Char Cu.rparen]))] ++
          lit (js ".ewp") ++ [Eol])
    with ([Bol] ++ [Star Dot] ++ [Plus Space] ++ lit noBackup ++
          [Opt (Group (seqs ([Plus Space] ++ lit (js "(") ++ [Plus Digit] ++
                             lit (js ")") ++ [])))] ++
          lit (js ".ewp") ++ [Eol]).
  change (js " (" ++ ds ++ js ").ewp")
    with (js " " ++ js "(" ++ ds ++ js ")" ++ js ".ewp" ++ []).
  apply term_then. cbn [rmatch Nat.eqb andb].
  apply term_then. apply star_takes; [apply plain_take; exact Hn|].
  apply term_then. apply plus_takes; [discriminate | exact space_takes|].
  apply lit_then. apply term_then. apply opt_take.
  apply term_then. apply plus_takes; [discriminate | exact space_takes|].
  apply lit_then. apply term_then.
  apply plus_takes; [exact Hne | apply digits_take; exact Hds|].
  apply lit_then. cbn [seqs seq_of rev rmatch].
  apply lit_then. reflexivity.
Qed.

Lemma eol_end i (w : jsstring) k : rmatch (seqs [Eol]) i w k = true -> w = [].
Proof. cbn. destruct w; [reflexivity | discriminate]. Qed.

Lemma rmatch_seqs_one (a : Regex) (rest : list Regex) i s k :
  rmatch (seqs ([a] ++ rest)) i s k =
  rmatch a i s (fun j u => rmatch (seqs rest) j u k).
Proof. apply rmatch_seqs_cons. Qed.

Lemma bol_start (pre : jsstring) (b : bool) :
  Nat.eqb (length pre + 0) 0 && b = true -> pre = [] /\ b = true.
Proof.
  intros H. apply andb_true_iff in H. destruct H as [Hpre H].
  apply Nat.eqb_eq in Hpre. split; [|exact H].
  destruct pre; [reflexivity | simpl in Hpre; lia].
Qed.

(** What the English pattern takes starts with Backup and ends in
    [.ewp]. *)
Lemma eng_shape (b : jsstring) :
  test isBackupEng b = true ->
  exists mid, b = js "Backup" ++ mid ++ js ".ewp".
Proof.
  unfold test. rewrite search_spec. intros (pre & post & -> & H).
  unfold isBackupEng in H. rewrite rmatch_seqs_one in H.
  cbn [rmatch] in H. apply bol_start in H. destruct H as [-> H].
  apply rmatch_lit in H. destruct H as (v & -> & H).
  apply rmatch_seqs_suffix in H. destruct H as (p1 & u1 & -> & H).
  apply rmatch_seqs_suffix in H. destruct H as (p2 & u2 & -> & H).
  apply rmatch_seqs_suffix in H. destruct H as (p3 & u3 & -> & H).
  apply rmatch_lit in H. destruct H as (w & -> & H).
  apply eol_end in H. subst w.
  exists (p1 ++ p2 ++ p3). cbn [app]. rewrite <- !app_assoc. reflexivity.
Qed.

(** What the Japanese pattern takes holds the phrase and ends in
    [.ewp]. *)
Lemma jpn_shape (b : jsstring) :
  test isBackupJpn b = true ->
  exists pre mid, b = pre ++ noBackup ++ mid ++ js ".ewp".
Proof.
  unfold test. rewrite search_spec. intros (pre & post & -> & H).
  unfold isBackupJpn in H.
  apply rmatch_seqs_suffix in H. destruct H as (p1 & u1 & -> & H).
  apply rmatch_lit in H. destruct H as (v & -> & H).
  apply rmatch_seqs_suffix in H. destruct H as (p2 & u2 & -> & H).
  apply rmatch_lit in H. destruct H as (w & -> & H).
  apply eol_end in H. subst w.
  exists (pre ++ p1), p2. rewrite <- !app_assoc. reflexivity.
Qed.

Lemma plain_by_check (n : jsstring) :
  forallb (fun c => negb (isLineTerminator c) && negb (N.eqb c Cu.slash)) n = true ->
  Forall plainUnit n.
Proof.
  intros H. apply Forall_forall. intros c Hc.
  rewrite forallb_forall in H. specialize (H c Hc).
  apply andb_true_iff in H. destruct H as [H1 H2].
  apply negb_true_iff in H1. apply negb_true_iff, N.eqb_neq in H2.
  split; assumption.
Qed.

Lemma digits_by_check (ds : jsstring) :
  forallb isDigit ds = true -> Forall digitUnit ds.
Proof.
  intros H. apply Forall_forall. intros c Hc.
  rewrite forallb_forall in H. exact (H c Hc).
Qed.

Lemma digits_notSlash (ds : jsstring) : Forall digitUnit ds -> Forall notSlash ds.
Proof. apply Forall_impl. exact digit_notSlash. Qed.

Lemma noBackup_notSlash : Forall notSlash noBackup.
Proof. apply js_notSlash. reflexivity. Qed.

(** [isBackupFile] on a path that ends in a file name. *)
Lemma isBackupFile_in_dir (dir file : jsstring) :
  file <> [] -> Forall notSlash file ->
  isBackupFile (dir ++ Cu.slash :: file) =
  test isBackupEng file || test isBackupJpn file.
Proof.
  intros Hne Hfile. unfold isBackupFile.
  rewrite basename_in_dir by assumption. reflexivity.
Qed.

Ltac no_slash :=
  repeat (apply Forall_app; split);
  first [ assumption
        | apply js_notSlash; reflexivity
        | apply noBackup_notSlash
        | apply plain_notSlash; assumption
        | apply digits_notSlash; assumption ].

Ltac not_empty :=
  let E := fresh in
  intros E; apply (f_equal (@length N)) in E;
  rewrite ?length_app in E; cbn [length js] in E; lia.

(** X1: in any directory, a project file named Backup of, then anything
    without a line break, then [.ewp], is a backup file, with or
    without a counter in parentheses after Backup; and so is one named
    anything, a space, the Japanese phrase, with or without a counter,
    then [.ewp]. *)
Theorem isBackupFile_accepts_backup_names (dir n ds : jsstring) :
  Forall plainUnit n -> Forall digitUnit ds -> ds <> [] ->
  isBackupFile (dir ++ js "/" ++ js "Backup of" ++ n ++ js ".ewp") = true /\
  isBackupFile (dir ++ js "/" ++ js "Backup (" ++ ds ++ js ") of" ++ n ++ js ".ewp")
  = true /\
  isBackupFile (dir ++ js "/" ++ n ++ js " " ++ noBackup ++ js ".ewp") = true /\
  isBackupFile (dir ++ js "/" ++ n ++ js " " ++ noBackup ++ js " (" ++ ds ++
                js ").ewp") = true.
Proof.
  intros Hn Hds Hne.
  change (js "/") with [Cu.slash]. cbn [app].
  repeat split.
  - change (isBackupFile (dir ++ Cu.slash :: (js "Backup of" ++ n ++ js ".ewp")) = true).
    rewrite isBackupFile_in_dir; [| not_empty | no_slash].
    rewrite eng_plain by exact Hn. reflexivity.
  - change (isBackupFile (dir ++ Cu.slash ::
                          (js "Backup (" ++ ds ++ js ") of" ++ n ++ js ".ewp")) = true).
    rewrite isBackupFile_in_dir; [| not_empty | no_slash].
    rewrite eng_numbered by assumption. reflexivity.
  - rewrite isBackupFile_in_dir; [| not_empty | no_slash].
    rewrite jpn_plain by exact Hn. apply orb_true_r.
  - rewrite isBackupFile_in_dir; [| not_empty | no_slash].
    rewrite jpn_numbered by assumption. apply orb_true_r.
Qed.

(** The backups of a project Foo in the directory [/ws]. *)
Lemma isBackupFile_accepts_backup_names_witness :
  isBackupFile (js "/ws/Backup of Foo.ewp") = true /\
  isBackupFile (js "/ws/Backup (2) of Foo.ewp") = true /\
  isBackupFile (js "/ws/ Foo " ++ noBackup ++ js ".ewp") = true /\
  isBackupFile (js "/ws/ Foo " ++ noBackup ++ js " (2).ewp") = true.
Proof.
  apply (@isBackupFile_accepts_backup_names (js "/ws") (js " Foo") (js "2")).
  - repeat (constructor; [split; [reflexivity | discriminate]|]). constructor.
  - repeat constructor.
  - discriminate.
Defined.

(** X2: [isBackupFile] holds only of a path whose last portion ends in
    [.ewp] and either starts with Backup or holds the Japanese phrase. *)
Theorem isBackupFile_only_backup_names (path : jsstring) :
  isBackupFile path = true ->
  (exists mid, basename path = js "Backup" ++ mid ++ js ".ewp") \/
  (exists pre mid, basename path = pre ++ noBackup ++ mid ++ js ".ewp").
Proof.
  unfold isBackupFile. intros H. apply orb_true_iff in H.
  destruct H as [H|H]; [left; apply eng_shape | right; apply jpn_shape]; exact H.
Qed.

Lemma isBackupFile_only_backup_names_witness :
  isBackupFile (js "/ws/Backup of Foo.ewp") = true /\
  ((exists mid,
       basename (js "/ws/Backup of Foo.ewp") = js "Backup" ++ mid ++ js ".ewp") \/
   (exists pre mid,
       basename (js "/ws/Backup of Foo.ewp") = pre ++ noBackup ++ mid ++ js ".ewp")).
Proof.
  split; [reflexivity|].
  apply (@isBackupFile_only_backup_names (js "/ws/Backup of Foo.ewp")).
  reflexivity.
Defined.

End BackupNameFacts.

(* ===================================================================== *)
(** * BackupUtils.doWithBackupCheck: the names the two patterns take *)
(* ===================================================================== *)

Module GuardPatternFacts.

Import RegExp Pattern RegExpFacts RegExpSpec RegExpMore BackupUtils JsString JsStringFacts.
Import BackupGuard BackupGuardSpec BackupGuardFacts BackupGuardTheorems.
Import UtilsSpec BackupNameFacts.

Lemma test_anywhere (r : Regex) (pre post : jsstring) :
  rmatch r (length pre + 0) post (fun _ _ => true) = true ->
  test r (pre ++ post) = true.
Proof.
  intros H. unfold test. apply search_spec. exists pre, post. auto.
Qed.

Lemma lit_last (t post : jsstring) i :
  rmatch (seqs (lit t)) i (t ++ post) (fun _ _ => true) = true.
Proof.
  rewrite <- (app_nil_r (lit t)). apply lit_then. reflexivity.
Qed.

Lemma spaces_take : forall run, run = js " " -> Forall (takes Space) run.
Proof. intros run ->. exact space_takes. Qed.

(** The first pattern of the guard, without and with a counter. *)
Lemma guard_eng_plain (n pre post : jsstring) :
  test (seqs (engTerms n)) (pre ++ js "Backup of " ++ n ++ js ".ew" ++ post) = true.
Proof.
  apply test_anywhere. unfold engTerms, engPrefix.
  change (js "Backup of " ++ n ++ js ".ew" ++ post)
    with (js "Backup" ++ js " " ++ [] ++ js "of " ++ n ++ js ".ew" ++ post).
  rewrite <- !app_assoc.
  apply lit_then.
  change ([Plus Space;
           Opt (Group (seqs [Char Cu.lparen; Plus Digit; Char Cu.rparen]));
           Star Space] ++ ?R)
    with ([Plus Space] ++
          [Opt (Group (seqs [Char Cu.lparen; Plus Digit; Char Cu.rparen]))] ++
          [Star Space] ++ R).
  apply term_then. apply plus_takes; [discriminate | exact space_takes|].
  apply term_then. apply opt_skip.
  apply term_then. apply star_takes; [constructor|].
  apply lit_then. apply lit_then. apply lit_last.
Qed.

Lemma guard_eng_numbered (n ds pre post : jsstring) :
  Forall digitUnit ds -> ds <> [] ->
  test (seqs (engTerms n))
       (pre ++ js "Backup (" ++ ds ++ js ") of " ++ n ++ js ".ew" ++ post) = true.
Proof.
  intros Hds Hne. apply test_anywhere. unfold engTerms, engPrefix.
  change (js "Backup (" ++ ds ++ js ") of " ++ n ++ js ".ew" ++ post)
    with (js "Backup" ++ js " " ++ js "(" ++ ds ++ js ")" ++ js " " ++
          js "of " ++ n ++ js ".ew" ++ post).
  rewrite <- !app_assoc.
  apply lit_then.
  change ([Plus Space;
           Opt (Group (seqs [Char Cu.lparen; Plus Digit; Char Cu.rparen]));
           Star Space] ++ ?R)
    with ([Plus Space] ++
          [Opt (Group (seqs (lit (js "(") ++ [Plus Digit] ++ lit (js ")"))))] ++
          [Star Space] ++ R).
  apply term_then. apply plus_takes; [discriminate | exact space_takes|].
  apply term_then. apply opt_take.
  apply lit_then. apply term_then.
  apply plus_takes; [exact Hne | apply digits_take; exact Hds|].
  rewrite <- (app_nil_r (lit (js ")"))). apply lit_then. cbn [seqs seq_of rev rmatch].
  apply term_then. apply star_takes; [exact space_takes|].
  apply lit_then. apply lit_then. apply lit_last.
Qed.

(** The second pattern of the guard, without and with a counter. *)
Lemma guard_jpn_plain (n pre post : jsstring) :
  test (seqs (jpnTerms n)) (pre ++ n ++ js " " ++ noBackup ++ js ".ew" ++ post) = true.
Proof.
  apply test_anywhere. unfold jpnTerms, jpnSuffix.
  apply lit_then.
  apply term_then. apply plus_takes; [discriminate | exact space_takes|].
  apply lit_then. apply term_then. apply opt_skip. apply lit_last.
Qed.

Lemma guard_jpn_numbered (n ds pre post : jsstring) :
  Forall digitUnit ds -> ds <> [] ->
  test (seqs (jpnTerms n))
       (pre ++ n ++ js " " ++ noBackup ++ js " (" ++ ds ++ js ").ew" ++ post) = true.
Proof.
  intros Hds Hne. apply test_anywhere. unfold jpnTerms, jpnSuffix.
  change (js " (" ++ ds ++ js ").ew" ++ post)
    with (js " " ++ js "(" ++ ds ++ js ")" ++ js ".ew" ++ post).
  change ([Opt (Group (seqs [Plus Space; Char Cu.lparen; Plus Digit; Char Cu.rparen]))])
    with ([Opt (Group (seqs ([Plus Space] ++ lit (js "(") ++ [Plus Digit] ++
                             lit (js ")"))))]).
  apply lit_then.
  apply term_then. apply plus_takes; [discriminate | exact space_takes|].
  apply lit_then. apply term_then. apply opt_take.
  apply term_then. apply plus_takes; [discriminate | exact space_takes|].
  apply lit_then. apply term_then.
  apply plus_takes; [exact Hne | apply digits_take; exact Hds|].
  rewrite <- (app_nil_r (lit (js ")"))). apply lit_then. cbn [seqs seq_of rev rmatch].
  apply lit_last.
Qed.

Lemma lit_end (t s : jsstring) i :
  rmatch (seqs (lit t)) i s (fun _ _ => true) = true -> exists post, s = t ++ post.
Proof.
  rewrite <- (app_nil_r (lit t)). intros H. apply rmatch_lit in H.
  destruct H as (v & -> & _). exists v. reflexivity.
Qed.

(** What the first pattern takes. *)
Lemma guard_eng_shape (n f : jsstring) :
  test (seqs (engTerms n)) f = true ->
  exists pre mid post,
    f = pre ++ js "Backup" ++ mid ++ js "of " ++ n ++ js ".ew" ++ post.
Proof.
  unfold test. rewrite search_spec. intros (pre & rest & -> & H).
  unfold engTerms, engPrefix in H. rewrite <- !app_assoc in H.
  apply rmatch_lit in H. destruct H as (v & -> & H).
  apply rmatch_seqs_suffix in H. destruct H as (mid & u & -> & H).
  apply rmatch_lit in H. destruct H as (v & -> & H).
  apply rmatch_lit in H. destruct H as (w & -> & H).
  apply lit_end in H. destruct H as (post & ->).
  exists pre, mid, post. reflexivity.
Qed.

(** What the second pattern takes. *)
Lemma guard_jpn_shape (n f : jsstring) :
  test (seqs (jpnTerms n)) f = true ->
  exists pre m1 m2 post,
    f = pre ++ n ++ m1 ++ noBackup ++ m2 ++ js ".ew" ++ post.
Proof.
  unfold test. rewrite search_spec. intros (pre & rest & -> & H).
  unfold jpnTerms, jpnSuffix in H.
  apply rmatch_lit in H. destruct H as (v & -> & H).
  apply rmatch_seqs_suffix in H. destruct H as (m1 & u & -> & H).
  apply rmatch_lit in H. destruct H as (v & -> & H).
  apply rmatch_seqs_suffix in H. destruct H as (m2 & u & -> & H).
  apply lit_end in H. destruct H as (post & ->).
  exists pre, m1, m2, post. reflexivity.
Qed.

Lemma backupsOf_one (project f : jsstring) :
  isBackupOf project f = true -> backupsOf project [f] = [f].
Proof. intros H. rewrite backupsOf_spec. cbn [filter]. rewrite H. reflexivity. Qed.

Lemma isBackupOf_eng project f :
  test (seqs (engTerms (projectName project))) f = true -> isBackupOf project f = true.
Proof. intros H. unfold isBackupOf, isBackup. rewrite H. reflexivity. Qed.

Lemma isBackupOf_jpn project f :
  test (seqs (jpnTerms (projectName project))) f = true -> isBackupOf project f = true.
Proof. intros H. unfold isBackupOf, isBackup. rewrite H. apply orb_true_r. Qed.

(** X3: for every project, a file name is among the backups of the guard
    when it holds, anywhere, Backup, a space, of, a space, the
    project's name and [.ew], or the project's name, a space, the
    Japanese phrase and [.ew], in both cases with or without a counter
    in parentheses. *)
Theorem guard_takes_backup_names (project pre post ds : jsstring) :
  Forall digitUnit ds -> ds <> [] ->
  let n := projectName project in
  backupsOf project
    [pre ++ js "Backup of " ++ n ++ js ".ew" ++ post;
     pre ++ js "Backup (" ++ ds ++ js ") of " ++ n ++ js ".ew" ++ post;
     pre ++ n ++ js " " ++ noBackup ++ js ".ew" ++ post;
     pre ++ n ++ js " " ++ noBackup ++ js " (" ++ ds ++ js ").ew" ++ post]
  = [pre ++ js "Backup of " ++ n ++ js ".ew" ++ post;
     pre ++ js "Backup (" ++ ds ++ js ") of " ++ n ++ js ".ew" ++ post;
     pre ++ n ++ js " " ++ noBackup ++ js ".ew" ++ post;
     pre ++ n ++ js " " ++ noBackup ++ js " (" ++ ds ++ js ").ew" ++ post].
Proof.
  intros Hds Hne n. rewrite backupsOf_spec. cbn [filter].
  rewrite (isBackupOf_eng project _ (guard_eng_plain n pre post)).
  rewrite (isBackupOf_eng project _ (guard_eng_numbered n pre post Hds Hne)).
  rewrite (isBackupOf_jpn project _ (guard_jpn_plain n pre post)).
  rewrite (isBackupOf_jpn project _ (guard_jpn_numbered n pre post Hds Hne)).
  reflexivity.
Qed.

(** Backups of the project [/ws/Foo.ewp], of all three kinds of file. *)
Lemma guard_takes_backup_names_witness :
  Forall digitUnit (js "2") /\
  backupsOf (js "/ws/Foo.ewp")
    [js "Backup of Foo.ewp"; js "Backup (2) of Foo.ewp";
     js "Foo " ++ noBackup ++ js ".ewp"; js "Foo " ++ noBackup ++ js " (2).ewp"]
  = [js "Backup of Foo.ewp"; js "Backup (2) of Foo.ewp";
     js "Foo " ++ noBackup ++ js ".ewp"; js "Foo " ++ noBackup ++ js " (2).ewp"].
Proof.
  assert (D : Forall digitUnit (js "2")) by (repeat constructor).
  split; [exact D|].
  apply (@guard_takes_backup_names (js "/ws/Foo.ewp") [] (js "p") (js "2") D).
  discriminate.
Defined.

(** X4: a file name is among the backups of the guard only when it
    holds the project's name with [.ew] somewhere after it, and either
    Backup and of before the name or the Japanese phrase between the
    name and [.ew]. *)
Theorem guard_takes_only_backup_names (project f : jsstring)
        (files : list jsstring) :
  In f (backupsOf project files) ->
  let n := projectName project in
  In f files /\
  ((exists pre mid post,
       f = pre ++ js "Backup" ++ mid ++ js "of " ++ n ++ js ".ew" ++ post) \/
   (exists pre m1 m2 post,
       f = pre ++ n ++ m1 ++ noBackup ++ m2 ++ js ".ew" ++ post)).
Proof.
  rewrite backupsOf_spec, filter_In. intros [Hin H] n. split; [exact Hin|].
  unfold isBackupOf, isBackup in H. apply orb_true_iff in H.
  destruct H as [H|H];
    [left; apply guard_eng_shape | right; apply guard_jpn_shape]; exact H.
Qed.

Lemma guard_takes_only_backup_names_witness :
  let files := [js "Foo.ewp"; js "Backup of Foo.ewt"] in
  In (js "Backup of Foo.ewt") (backupsOf (js "/ws/Foo.ewp") files) /\
  In (js "Backup of Foo.ewt") files.
Proof.
  intros files.
  assert (I : In (js "Backup of Foo.ewt") (backupsOf (js "/ws/Foo.ewp") files))
    by (vm_compute; left; reflexivity).
  split; [exact I|].
  exact (proj1 (@guard_takes_only_backup_names (js "/ws/Foo.ewp")
                  (js "Backup of Foo.ewt") files I)).
Defined.

End GuardPatternFacts.

(* ===================================================================== *)
(** * RegexUtils.escape: the escaped text *)
(* ===================================================================== *)

Module EscapeFacts.

Import JsString JsStringFacts UtilsSpec RegexUtils.
Local Open Scope N_scope.

Lemma escape_cons (c : N) (s : jsstring) :
  escape (c :: s) = (if special c then [Cu.backslash; c] else [c]) ++ escape s.
Proof. reflexivity. Qed.

Lemma unescape_escape (s : jsstring) : unescape (escape s) = s.
Proof.
  induction s as [|c s IH]; [reflexivity|].
  rewrite escape_cons. destruct (special c) eqn:E.
  - cbn [app unescape]. change (Cu.backslash =? Cu.backslash) with true.
    cbn iota. rewrite IH. reflexivity.
  - cbn [app unescape].
    destruct (N.eqb_spec c Cu.backslash) as [->|_]; [discriminate E|].
    rewrite IH. reflexivity.
Qed.

(** X5: different texts have different escaped forms. *)
Theorem escape_injective (a b : jsstring) : escape a = escape b -> a = b.
Proof.
  intros H. rewrite <- (unescape_escape a), <- (unescape_escape b), H.
  reflexivity.
Qed.

Lemma escape_injective_witness :
  escape (js "a.b") = js "a\.b" /\ js "a.b" = js "a.b".
Proof.
  split; [reflexivity|].
  apply (@escape_injective (js "a.b") (js "a.b")). reflexivity.
Defined.

(** X6: escaping never shortens a text and at most doubles it, and it
    leaves a text as it is exactly when the text holds none of the
    fourteen code units of the class. *)
Theorem escape_length (s : jsstring) :
  (length s <= length (escape s) <= 2 * length s)%nat /\
  (escape s = s <-> Forall (fun c => special c = false) s).
Proof.
  induction s as [|c s [IHl IHe]].
  - split; [simpl; lia|]. split; [constructor | reflexivity].
  - rewrite escape_cons. destruct (special c) eqn:E.
    + split; [cbn [app length]; lia|]. split.
      * intros H. exfalso. apply (f_equal (@length N)) in H.
        cbn [app length] in H. lia.
      * intros H. inversion H; congruence.
    + split; [cbn [app length]; lia|]. cbn [app]. split.
      * intros H. injection H as H. constructor; [exact E | apply IHe; exact H].
      * intros H. inversion H; subst. f_equal. apply IHe. assumption.
Qed.

End EscapeFacts.

(* ===================================================================== *)
(** * ListUtils.mergeUnique: merging in steps *)
(* ===================================================================== *)

Module MergeUniqueMore.

Import JsString JsStringFacts ListUtils MergeUniqueSpec MergeUniqueTheorems.
Import UtilsSpec.

Section Facts.

Variable T : Type.
Variable getKey : T -> jsstring.

Lemma set_fresh (k : jsstring) (v : T) (m : JsMap.t T) :
  ~ In k (JsMap.keys m) -> JsMap.set k v m = m ++ [(k, v)].
Proof.
  unfold JsMap.keys. induction m as [|[k' v'] m IH]; intros H; [reflexivity|].
  simpl in *. destruct (eqb_spec k' k) as [->|_]; [tauto|].
  rewrite IH by tauto. reflexivity.
Qed.

(** Filling a map with elements of new, distinct keys appends them. *)
Lemma fold_fresh (l : list T) (m : JsMap.t T) :
  NoDup (JsMap.keys m ++ map getKey l) ->
  fold_left (fun m item => JsMap.set (getKey item) item m) l m
  = m ++ map (entryOf getKey) l.
Proof.
  revert m. induction l as [|x l IH]; intros m H.
  - simpl. rewrite app_nil_r. reflexivity.
  - cbn [fold_left map]. rewrite set_fresh.
    + rewrite IH.
      * rewrite <- app_assoc. reflexivity.
      * unfold JsMap.keys in *. rewrite map_app. cbn [map fst].
        rewrite <- app_assoc. exact H.
    + cbn [map] in H. apply NoDup_remove_2 in H.
      intros Hin. apply H. apply in_or_app. left. exact Hin.
Qed.

Lemma values_entries (l : list T) : JsMap.values (map (entryOf getKey) l) = l.
Proof.
  unfold JsMap.values. rewrite map_map. cbn. apply map_id.
Qed.

Lemma keyed_entries (m : JsMap.t T) :
  keyed getKey m -> map (entryOf getKey) (JsMap.values m) = m.
Proof.
  unfold keyed, JsMap.values. induction 1 as [|[k v] m He _ IH]; [reflexivity|].
  cbn [map snd]. rewrite IH. unfold entryOf. cbn in He. rewrite He. reflexivity.
Qed.

(** The map after the two loops has distinct keys and holds every value
    under its key. *)
Lemma collect_wf (lists : list (list T)) :
  NoDup (JsMap.keys (collect getKey lists [])) /\
  keyed getKey (collect getKey lists []).
Proof.
  rewrite collect_concat. split.
  - rewrite keys_fold. apply note_fold_spec. constructor.
  - apply keyed_fold. constructor.
Qed.

End Facts.

(** X7: a single list in which no two elements have the same key comes
    back unchanged. *)
Theorem mergeUnique_keeps_distinct (T : Type) (getKey : T -> jsstring)
        (l : list T) :
  NoDup (map getKey l) -> mergeUnique getKey [l] = l.
Proof.
  intros H. unfold mergeUnique. rewrite collect_concat. cbn [concat].
  rewrite app_nil_r. rewrite fold_fresh by exact H. apply values_entries.
Qed.

Lemma mergeUnique_keeps_distinct_witness :
  mergeUnique (fun x : jsstring => x) [[js "b"; js "a"; js "c"]]
  = [js "b"; js "a"; js "c"].
Proof.
  apply (@mergeUnique_keeps_distinct jsstring (fun x => x)).
  repeat constructor; simpl; intuition discriminate.
Defined.

(** X8: merging can be done in steps: merging some lists and then merging
    the result with further lists gives what merging all of them at once
    gives; in particular merging the result again changes nothing. *)
Theorem mergeUnique_in_steps (T : Type) (getKey : T -> jsstring)
        (xs ys : list (list T)) :
  mergeUnique getKey (mergeUnique getKey xs :: ys) = mergeUnique getKey (xs ++ ys) /\
  mergeUnique getKey [mergeUnique getKey xs] = mergeUnique getKey xs.
Proof.
  assert (Step : forall ys,
             mergeUnique getKey (mergeUnique getKey xs :: ys)
             = mergeUnique getKey (xs ++ ys)).
  { intros zs. unfold mergeUnique.
    destruct (collect_wf getKey xs) as [Hnd Hk].
    rewrite !collect_concat. rewrite collect_concat in Hnd, Hk.
    cbn [concat]. rewrite concat_app, !fold_left_app.
    set (m := fold_left (fun m item => JsMap.set (getKey item) item m)
                        (concat xs) []) in *.
    rewrite (fold_fresh getKey (JsMap.values m) []).
    - cbn [app]. rewrite (keyed_entries Hk). reflexivity.
    - cbn [JsMap.keys map app]. rewrite (keyed_values Hk). exact Hnd. }
  split; [apply Step|].
  rewrite (Step []). rewrite app_nil_r. reflexivity.
Qed.

End MergeUniqueMore.

(* ===================================================================== *)
(** * LanguageUtils.determineLanguage *)
(* ===================================================================== *)

Module LanguageFacts.

Import JsString JsStringFacts Path PathFacts UtilsSpec LanguageUtils LanguageSpec.
Local Open Scope N_scope.

Lemma basename_after (prefix file : jsstring) :
  dirPrefix prefix -> file <> [] -> Forall notSlash file ->
  basename (prefix ++ file) = file.
Proof.
  intros [->|(dir & ->)] Hne Hfile.
  - apply basename_of_name. exact Hfile.
  - rewrite <- app_assoc. apply basename_in_dir; assumption.
Qed.

Lemma plainExt_notSlash (s : jsstring) : Forall plainExt s -> Forall notSlash s.
Proof. apply Forall_impl. intros c [_ H]. exact H. Qed.

Lemma plainExt_notDot (s : jsstring) :
  Forall plainExt s -> Forall (fun c => negb (c =? Cu.dot) = true) (rev s).
Proof.
  intros H. apply Forall_rev. eapply Forall_impl; [|exact H].
  intros c [Hc _]. apply negb_true_iff, N.eqb_neq. exact Hc.
Qed.

(** The extension of a file name with a stem. *)
Lemma extname_stem_ext (prefix stem ext : jsstring) :
  dirPrefix prefix -> stem <> [] -> Forall notSlash stem ->
  ext <> [] -> Forall plainExt ext ->
  extname (prefix ++ stem ++ Cu.dot :: ext) = Cu.dot :: ext.
Proof.
  intros Hp Hs Hstem He Hext. unfold extname.
  rewrite basename_after; [|exact Hp| |].
  - set (b := stem ++ Cu.dot :: ext).
    assert (Htail : takeWhile (fun c => negb (c =? Cu.dot)) (rev b) = rev ext).
    { unfold b. rewrite rev_app_distr. cbn [rev]. rewrite <- app_assoc. cbn [app].
      apply takeWhile_app_stop; [apply plainExt_notDot; exact Hext | reflexivity]. }
    rewrite Htail, length_rev.
    assert (Hlen : length b = (length stem + S (length ext))%nat)
      by (unfold b; rewrite length_app; reflexivity).
    assert (Ls : (0 < length stem)%nat) by (destruct stem; [congruence | simpl; lia]).
    assert (Le : (0 < length ext)%nat) by (destruct ext; [congruence | simpl; lia]).
    destruct (Nat.eqb_spec (length ext) (length b)) as [E|_]; [lia|].
    replace (length b - S (length ext))%nat with (length stem) by lia.
    destruct (Nat.eqb_spec (length stem) 0) as [E|_]; [lia|].
    destruct (eqb_spec b (js "..")) as [E|_].
    + apply (f_equal (@length N)) in E. rewrite Hlen in E. simpl in E. lia.
    + unfold b. rewrite skipn_app, skipn_all, Nat.sub_diag. reflexivity.
  - destruct stem; [congruence | discriminate].
  - apply Forall_app. split; [exact Hstem|].
    constructor; [discriminate | apply plainExt_notSlash; exact Hext].
Qed.

(** No extension: a name without a dot, and a name whose only dot
    comes first. *)
Lemma extname_none (prefix name : jsstring) :
  dirPrefix prefix -> name <> [] -> Forall plainExt name ->
  extname (prefix ++ name) = [] /\ extname (prefix ++ Cu.dot :: name) = [].
Proof.
  intros Hp Hne Hname. split; unfold extname.
  - rewrite basename_after; [|exact Hp|exact Hne|apply plainExt_notSlash; exact Hname].
    rewrite takeWhile_all by (apply plainExt_notDot; exact Hname).
    rewrite length_rev, Nat.eqb_refl. reflexivity.
  - rewrite basename_after; [|exact Hp|discriminate|].
    + cbn [rev]. rewrite takeWhile_app_stop;
        [|apply plainExt_notDot; exact Hname|reflexivity].
      rewrite length_rev. cbn [length].
      destruct (Nat.eqb_spec (length name) (S (length name))) as [E|_]; [lia|].
      rewrite Nat.sub_diag. reflexivity.
    + constructor; [discriminate | apply plainExt_notSlash; exact Hname].
Qed.

Lemma includes_dot (exts : list jsstring) (ext : jsstring) :
  includes (map (cons Cu.dot) exts) (Cu.dot :: ext) = includes exts ext.
Proof.
  unfold includes. induction exts as [|e exts IH]; [reflexivity|].
  cbn [map existsb]. rewrite IH. f_equal.
Qed.

(** X9: for a file name with a stem and an extension, alone or after a
    directory prefix, the language is decided by the text after the
    last dot alone: c and h give C, the six C++ extensions give C++,
    and every other extension, such as the same letters in upper case,
    gives none. *)
Theorem determineLanguage_by_extension (prefix stem ext : jsstring) :
  dirPrefix prefix -> stem <> [] -> Forall notSlash stem ->
  ext <> [] -> Forall plainExt ext ->
  let language := determineLanguage (prefix ++ stem ++ js "." ++ ext) in
  (In ext [js "c"; js "h"] -> language = Some c) /\
  (In ext [js "cpp"; js "hpp"; js "cxx"; js "hxx"; js "cc"; js "hh"] ->
   language = Some cpp) /\
  (~ In ext [js "c"; js "h"; js "cpp"; js "hpp"; js "cxx"; js "hxx"; js "cc"; js "hh"] ->
   language = None).
Proof.
  intros Hp Hs Hstem He Hext language. subst language.
  unfold determineLanguage. change (js "." ++ ext) with (Cu.dot :: ext).
  rewrite extname_stem_ext by assumption.
  change cExtensions with (map (cons Cu.dot) [js "c"; js "h"]).
  change cppExtensions
    with (map (cons Cu.dot) [js "cpp"; js "hpp"; js "cxx"; js "hxx"; js "cc"; js "hh"]).
  rewrite !includes_dot.
  split; [|split].
  - intros H. apply includes_In in H. rewrite H. reflexivity.
  - intros H.
    destruct (includes [js "c"; js "h"] ext) eqn:E.
    + apply includes_In in E. exfalso.
      repeat (destruct E as [<-|E]; [repeat (destruct H as [H|H]; [discriminate H|]); exact H|]).
      exact E.
    + apply includes_In in H. rewrite H. reflexivity.
  - intros H.
    destruct (includes [js "c"; js "h"] ext) eqn:E1.
    + apply includes_In in E1. exfalso. apply H.
      destruct E1 as [<-|[<-|[]]]; simpl; tauto.
    + destruct (includes [js "cpp"; js "hpp"; js "cxx"; js "hxx"; js "cc"; js "hh"] ext) eqn:E2;
        [|reflexivity].
      apply includes_In in E2. exfalso. apply H. simpl in *. tauto.
Qed.

(** A C++ source, a C header and an upper-case extension. *)
Lemma determineLanguage_by_extension_witness :
  determineLanguage (js "/src/main.cpp") = Some cpp /\
  determineLanguage (js "util.h") = Some c /\
  determineLanguage (js "/src/MAIN.C") = None.
Proof.
  split; [|split].
  - apply (@determineLanguage_by_extension (js "/src/") (js "main") (js "cpp")).
    + right. exists (js "/src"). reflexivity.
    + discriminate.
    + repeat constructor; unfold notSlash; discriminate.
    + discriminate.
    + repeat constructor; discriminate.
    + simpl. tauto.
  - apply (@determineLanguage_by_extension [] (js "util") (js "h")).
    + left. reflexivity.
    + discriminate.
    + repeat constructor; unfold notSlash; discriminate.
    + discriminate.
    + repeat constructor; discriminate.
    + simpl. tauto.
  - apply (@determineLanguage_by_extension (js "/src/") (js "MAIN") (js "C")).
    + right. exists (js "/src"). reflexivity.
    + discriminate.
    + repeat constructor; unfold notSlash; discriminate.
    + discriminate.
    + repeat constructor; discriminate.
    + simpl. intuition discriminate.
Defined.

(** X10: a file name without a dot has no language, and neither has a
    name whose only dot comes first, such as a file named [.c]. *)
Theorem determineLanguage_without_extension (prefix name : jsstring) :
  dirPrefix prefix -> name <> [] -> Forall plainExt name ->
  determineLanguage (prefix ++ name) = None /\
  determineLanguage (prefix ++ js "." ++ name) = None.
Proof.
  intros Hp Hne Hname. destruct (extname_none Hp Hne Hname) as [E1 E2].
  unfold determineLanguage. change (js "." ++ name) with (Cu.dot :: name).
  rewrite E1, E2. split; reflexivity.
Qed.

Lemma determineLanguage_without_extension_witness :
  determineLanguage (js "/src/Makefile") = None /\
  determineLanguage (js "/src/.c") = None.
Proof.
  split.
  - apply (@determineLanguage_without_extension (js "/src/") (js "Makefile")).
    + right. exists (js "/src"). reflexivity.
    + discriminate.
    + repeat constructor; discriminate.
  - apply (@determineLanguage_without_extension (js "/src/") (js "c")).
    + right. exists (js "/src"). reflexivity.
    + discriminate.
    + repeat constructor; discriminate.
Defined.

End LanguageFacts.

(* ===================================================================== *)
(** * ProcessUtils.waitForExitCode and waitForExit *)
(* ===================================================================== *)

Module ProcessFacts.

Import ProcessUtils.

Section Wait.

Variable X : Type.

Lemma listen_settled (p : Promise (option Z) X) (events : list (ProcessEvent X)) :
  p <> Pending -> fold_left (@listen X) events p = p.
Proof.
  revert p; induction events as [|ev rest IH]; intros p Hp; [reflexivity|].
  cbn [fold_left]. destruct p as [|v|e]; [congruence| |];
    destruct ev; cbn [listen resolve reject]; apply IH; discriminate.
Qed.

Lemma waitForExitCode_cons (ev : ProcessEvent X) (later : list (ProcessEvent X)) :
  waitForExitCode (ev :: later) =
  match ev with
  | Exit code => Resolved code
  | Error e => Failed e
  end.
Proof.
  unfold waitForExitCode. cbn [fold_left].
  destruct ev; cbn [listen resolve reject]; apply listen_settled; discriminate.
Qed.

(** X11: the promise of waitForExitCode stays pending while the process
    has emitted nothing, and is settled by the first event for good: an
    exit fulfils it with the code, an error rejects it, and whatever
    the process emits later changes nothing. *)
Theorem waitForExitCode_first_event (events : list (ProcessEvent X)) :
  (waitForExitCode events = Pending <-> events = []) /\
  (forall ev later more,
      events = ev :: later ->
      waitForExitCode (events ++ more) = waitForExitCode events /\
      waitForExitCode events =
      match ev with
      | Exit code => Resolved code
      | Error e => Failed e
      end).
Proof.
  split.
  - destruct events as [|ev later]; [split; reflexivity|].
    rewrite waitForExitCode_cons. split; [destruct ev|]; discriminate.
  - intros ev later more ->. cbn [app]. rewrite !waitForExitCode_cons.
    split; reflexivity.
Qed.

(** X12: waitForExit fulfils exactly when the first event of the process
    is an exit with code 0; an error emitted first is passed on as it
    is, an exit without a code, as after a signal, rejects with a
    message that ends in null, and an exit with another code rejects
    with a message that ends in that code. *)
Theorem waitForExit_fulfils_on_zero (events : list (ProcessEvent X)) :
  (waitForExit events = Resolved tt <->
   exists later, events = Exit (Some 0%Z) :: later) /\
  (waitForExit events = Pending <-> events = []) /\
  (forall e later, events = Error e :: later ->
                   waitForExit events = Failed (Emitted e)) /\
  (forall later, events = Exit None :: later ->
                 waitForExit events =
                 Failed (NewError (js "Process exited with code: null"))) /\
  (forall z later, z <> 0%Z -> events = Exit (Some z) :: later ->
                   waitForExit events =
                   Failed (NewError (js "Process exited with code: " ++
                                     codeToString (Some z)))).
Proof.
  split; [|split; [|split; [|split]]].
  - split.
    + destruct events as [|ev later]; [discriminate|].
      unfold waitForExit. rewrite waitForExitCode_cons.
      destruct ev as [[[|p|p]|]|e]; try discriminate. eauto.
    + intros (later & ->). unfold waitForExit.
      rewrite waitForExitCode_cons. reflexivity.
  - destruct events as [|ev later]; [split; reflexivity|].
    unfold waitForExit. rewrite waitForExitCode_cons.
    split; [|discriminate]. destruct ev as [[[|p|p]|]|e]; discriminate.
  - intros e later ->. unfold waitForExit.
    rewrite waitForExitCode_cons. reflexivity.
  - intros later ->. unfold waitForExit.
    rewrite waitForExitCode_cons. reflexivity.
  - intros z later Hz ->. unfold waitForExit.
    rewrite waitForExitCode_cons. destruct z; [congruence| |]; reflexivity.
Qed.

End Wait.

End ProcessFacts.

(* ===================================================================== *)
(** * BackupUtils.doWithBackupCheck: what the clean-up touches *)
(* ===================================================================== *)

Module BackupGuardMore.

Import RegExp Pattern BackupGuard BackupGuardSpec Fs JsString JsStringFacts.
Import BackupGuardFacts BackupGuardTheorems.

Section Guard.

Variable X : Type.
Variable T : Type.

Lemma filter_none {A : Type} (f : A -> bool) (l : list A) :
  (forall x, In x l -> f x = false) -> filter f l = [].
Proof.
  induction l as [|x l IH]; intros H; [reflexivity|].
  cbn [filter]. rewrite (H x (or_introl eq_refl)).
  apply IH. intros y Hy. apply H. right. exact Hy.
Qed.

(** What the callback removes and what it leaves. *)
Lemma cleanup_removals (eng jpn : Regex) (orig : list jsstring) (d1 : Dir) :
  let '(err, d2, evs) := cleanup eng jpn orig d1 in
  (forall f ok, In (Rm f ok) evs ->
                isBackup eng jpn f = true /\ In f (entries d1) /\ ~ In f orig) /\
  (forall g, In g (entries d2) -> In g (entries d1)).
Proof.
  unfold cleanup, readdir.
  destruct (readdirError d1) as [code|] eqn:E.
  - split; [|auto]. intros f ok [H|[]]. discriminate H.
  - set (after := filter (isBackup eng jpn) (entries d1)).
    destruct (Nat.eqb_spec (length orig) (length after)) as [L|L]; simpl.
    + split; [|auto]. intros f ok [H|[]]. discriminate H.
    + set (new := filter (fun b => negb (includes orig b)) after).
      pose proof (rmAll_spec new d1) as R.
      pose proof (rmAll_events new d1) as V.
      destruct (rmAll new d1) as [d2 evs]. simpl in R, V.
      destruct R as (_ & _ & R3 & _). destruct V as (V1 & _).
      split; [|exact R3].
      intros f ok [H|H]; [discriminate H|].
      assert (I : In f new) by (apply V1; exists ok; exact H).
      unfold new, after in I. rewrite !filter_In, negb_true_iff in I.
      rewrite includes_not_In in I. tauto.
Qed.

(** When nothing is to be removed, the callback lists the directory
    and does nothing else. *)
Lemma cleanup_idle (eng jpn : Regex) (orig : list jsstring) (d1 : Dir) :
  (forall f, isBackup eng jpn f = true -> In f (entries d1) -> In f orig) \/
  length orig = length (filter (isBackup eng jpn) (entries d1)) \/
  readdirError d1 <> None ->
  cleanup eng jpn orig d1 =
  (readdirError d1, d1,
   [Readdir (match readdirError d1 with None => true | Some _ => false end)]).
Proof.
  intros H. unfold cleanup, readdir.
  destruct (readdirError d1) as [code|] eqn:E; [reflexivity|].
  destruct (Nat.eqb_spec (length orig)
              (length (filter (isBackup eng jpn) (entries d1)))) as [L|L];
    [reflexivity|].
  destruct H as [H|[H|H]]; [|contradiction|congruence].
  cbn [negb]. rewrite filter_none; [reflexivity|].
  intros f Hf. apply filter_In in Hf. destruct Hf as [Hin Hb].
  apply negb_false_iff, includes_In. apply H; assumption.
Qed.

End Guard.

(** X13: the clean-up attempts a removal only on a file that matches one
    of the two backup patterns of the project, is in the directory when
    the task settles and was not there when doWithBackupCheck started;
    it creates nothing, and whatever is missing afterwards of what the
    task left is such a new backup. *)
Theorem doWithBackupCheck_removes_only_new_backups (X T : Type)
        (project : jsstring) (task : Task X T) (d : Dir) :
  let d1 := snd (task d) in
  let run := doWithBackupCheck project task d in
  (forall f ok, In (Rm f ok) (events run) ->
                isBackupOf project f = true /\ In f (entries d1) /\
                ~ In f (entries d)) /\
  (forall g, In g (entries (dirAfter run)) ->
             In g (entries d1) \/ (readdirError d <> None /\ In g (entries d))) /\
  (forall g, readdirError d = None ->
             In g (entries d1) -> ~ In g (entries (dirAfter run)) ->
             isBackupOf project g = true /\ ~ In g (entries d)).
Proof.
  intros d1 run. subst d1 run.
  destruct (readdirError d) as [code|] eqn:E.
  - unfold doWithBackupCheck.
    rewrite backupRegexEng_compiles, backupRegexJpn_compiles.
    unfold readdir. rewrite E. cbn [events dirAfter].
    split; [|split].
    + intros f ok [H|[H|[]]]; discriminate H.
    + intros g Hg. right. split; [discriminate | exact Hg].
    + discriminate.
  - rewrite doWithBackupCheck_unfold by exact E.
    destruct (task d) as [taskPromise d1]. cbn [snd].
    pose proof (cleanup_removals (seqs (engTerms (projectName project)))
                  (seqs (jpnTerms (projectName project)))
                  (backupsOf project (entries d)) d1) as R.
    pose proof (cleanup_spec (seqs (engTerms (projectName project)))
                  (seqs (jpnTerms (projectName project)))
                  (backupsOf project (entries d)) d1) as S.
    cbv zeta.
    destruct (cleanup _ _ _ d1) as [[err d2] evs].
    cbn [events dirAfter]. destruct R as (R1 & R2). destruct S as (S1 & _).
    assert (New : forall f, isBackupOf project f = true ->
                            ~ In f (backupsOf project (entries d)) ->
                            ~ In f (entries d)).
    { intros f Hb Hn Hin. apply Hn. rewrite backupsOf_spec.
      apply filter_In. split; assumption. }
    split; [|split].
    + intros f ok [H|[H|[H|H]]]; try discriminate H.
      destruct (R1 f ok H) as (B & I & N).
      split; [exact B|]. split; [exact I|]. apply New; assumption.
    + intros g Hg. left. apply R2. exact Hg.
    + intros g _ Hg Hn. destruct (S1 g Hg) as [H|[B N]]; [contradiction|].
      split; [exact B|]. apply New; assumption.
Qed.

(** X14: when the directory can be listed at the start and the task
    leaves no backup of the project that was not there before, or as
    many backups as there were before, or a directory that cannot be
    listed, the clean-up lists the directory once and removes nothing:
    the directory stays as the task left it. *)
Theorem doWithBackupCheck_leaves_directory (X T : Type)
        (project : jsstring) (task : Task X T) (d : Dir) :
  let d1 := snd (task d) in
  let run := doWithBackupCheck project task d in
  readdirError d = None ->
  (forall f, isBackupOf project f = true -> In f (entries d1) ->
             In f (entries d)) \/
  length (backupsOf project (entries d)) =
  length (backupsOf project (entries d1)) \/
  readdirError d1 <> None ->
  dirAfter run = d1 /\
  events run =
  [Readdir true; TaskRun; Returned;
   Readdir (match readdirError d1 with None => true | Some _ => false end)].
Proof.
  intros d1 run E H. subst d1 run.
  rewrite doWithBackupCheck_unfold by exact E.
  destruct (task d) as [taskPromise d1]. cbn [snd] in *. cbv zeta.
  rewrite cleanup_idle; [split; reflexivity|].
  destruct H as [H|[H|H]].
  - left. intros f Hb Hin. rewrite backupsOf_spec. apply filter_In.
    split; [apply H; assumption | exact Hb].
  - right. left. rewrite H, backupsOf_spec. reflexivity.
  - right. right. exact H.
Qed.

(** An old backup gives way to a new one while the task runs: as many
    backups as before, and the new one stays. *)
Lemma doWithBackupCheck_leaves_directory_witness :
  readdirError BackupScenario.beforeRotating = None /\
  let run := doWithBackupCheck BackupScenario.project BackupScenario.rotating
               BackupScenario.beforeRotating in
  entries (dirAfter run) = [js "Foo.ewp"; js "Backup (2) of Foo.ewp"] /\
  events run = [Readdir true; TaskRun; Returned; Readdir true].
Proof.
  split; [reflexivity|].
  destruct (@doWithBackupCheck_leaves_directory unit nat BackupScenario.project
              BackupScenario.rotating BackupScenario.beforeRotating eq_refl)
    as [D E].
  - right. left. vm_compute. reflexivity.
  - cbv zeta. rewrite D, E. split; reflexivity.
Defined.


End BackupGuardMore.

(* ===================================================================== *)
(** * main.ts: more about the callbacks *)
(* ===================================================================== *)

Module MainMore.

Import Main MainSpec MainSpecMore MainFacts JsString JsStringFacts.

Section Callbacks.

Context {host : Host}.

Lemma parsed_unparsed parse files :
  (length (parsed parse files) + length (unparsed parse files) = length files)%nat.
Proof.
  unfold parsed, unparsed. induction files as [|file rest IH]; [reflexivity|].
  cbn [flat_map filter]. destruct (parse file); cbn [length app]; lia.
Qed.

Lemma reports_counts kind parse files :
  length (filter isLoggerError (reports kind parse files)) =
  length (unparsed parse files) /\
  length (filter isShowErrorMessage (reports kind parse files)) =
  length (unparsed parse files).
Proof.
  unfold reports, unparsed. induction files as [|file rest IH]; [split; reflexivity|].
  cbn [flat_map filter]. rewrite !filter_app, !length_app.
  destruct IH as [IH1 IH2]. rewrite IH1, IH2.
  destruct (parse file); split; reflexivity.
Qed.

(** X16: every delivery to the workspace callback accounts for each
    file: the callback ends normally, the workspace model holds one
    entity for each file that parses and no other, the number in the
    debug message is their number, one error is logged and one message
    shown for each file that does not parse, and the two numbers add up
    to the number of files delivered; the project model and the
    fallback projects are not touched. *)
Theorem ewwSubscribe_accounts_for_every_file
        (parse : jsstring -> Content + jsstring) (files : list jsstring)
        (st : State) :
  let result := ewwSubscribe parse files st in
  let after := snd result in
  let workspaces := items (workspace after) in
  fst result = Normal tt /\
  Permutation (map content workspaces) (parsed parse files) /\
  (length workspaces + length (unparsed parse files) = length files)%nat /\
  (exists errors,
      effects after =
      effects st ++ errors ++
      [LoggerDebug (js "Found " ++ of_nat (length workspaces) ++
                    js " workspace(s) in the VS Code workspace");
       WorkspaceSet workspaces] /\
      length (filter isLoggerError errors) = length (unparsed parse files) /\
      length (filter isShowErrorMessage errors) = length (unparsed parse files) /\
      length errors = (2 * length (unparsed parse files))%nat) /\
  project after = project st /\
  fallbackProjects after = fallbackProjects st.
Proof.
  intros result after workspaces. subst workspaces after result.
  rewrite ewwSubscribe_spec. cbn [fst snd workspace items Model_set project
                                  fallbackProjects effects].
  set (ws := fresh parse files (nextOid st)).
  assert (P : Permutation (map content (sort byName ws)) (parsed parse files)).
  { rewrite (Permutation_map content (sort_perm byName ws)).
    unfold ws. rewrite fresh_content. reflexivity. }
  assert (L : length (sort byName ws) = length (parsed parse files)).
  { rewrite <- (Permutation_length P). symmetry. apply length_map. }
  split; [reflexivity|]. split; [exact P|].
  split; [rewrite L; apply parsed_unparsed|].
  split; [|split; reflexivity].
  exists (reports (js "workspace") parse files).
  destruct (reports_counts (js "workspace") parse files) as [C1 C2].
  split; [|split; [exact C1|split; [exact C2|]]].
  - unfold foundMessage.
    rewrite (Permutation_length (sort_perm byName ws)). reflexivity.
  - clear. unfold reports, unparsed.
    induction files as [|file rest IH]; [reflexivity|].
    cbn [flat_map filter]. rewrite length_app, IH.
    destruct (parse file); cbn [length]; lia.
Qed.

Section Modified.

Variable others : State -> State.

(** X17: when the file of a tracked workspace or project is modified and
    parses to something equal to the tracked entity, neither handler
    calls set.  The workspace handler, once the comparison is done,
    asks for a reload of the workspace exactly when the selected
    workspace is the tracked object, and does nothing else; the
    project handler has asked for the reload of the tracked project
    before it parsed the file, and does nothing after the comparison. *)
Theorem onFileModified_unchanged_file
        (parse : jsstring -> Content + jsstring) (file : jsstring) (st : State)
        (c : Content) :
  parse file = inl c ->
  (forall old,
      trackedWorkspace file st = Some old ->
      workspaceEqual (content old) c = true ->
      let resumed := others (bump st) in
      ewwOnFileModified others parse file st =
      (Normal tt,
       match selected (workspace resumed) with
       | Some s => if same s old
                   then others (noted ReloadWorkspace resumed)
                   else resumed
       | None => resumed
       end)) /\
  (forall old,
      trackedProject file st = Some old ->
      projectEqual (content old) c = true ->
      ewpOnFileModified others parse file st =
      (Normal tt, bump (others (noted (ReloadProject old) st)))).
Proof.
  intros P. split.
  - intros old H Q. unfold trackedWorkspace in H. cbv zeta.
    unfold ewwOnFileModified, bind, gets, construct, await.
    rewrite H, P. cbn [content]. rewrite Q. cbn [negb].
    unfold bump, noted, emit, ret.
    destruct (selected (workspace (others _))) as [s|];
      [destruct (same s old)|]; reflexivity.
  - intros old H Q. unfold trackedProject in H.
    unfold ewpOnFileModified, bind, gets, construct, emit, await.
    rewrite H, P. cbn [content]. rewrite Q. reflexivity.
Qed.



End Modified.

End Callbacks.

(** The second workspace file is written again with the same content:
    no workspace is selected, and nothing happens but the parsing. *)
Lemma onFileModified_unchanged_file_witness :
  WatcherScenario.twoWorkspaces (js "/ws/B.eww")
  = inl (content WatcherScenario.trackedB) /\
  ewwOnFileModified WatcherScenario.undisturbed WatcherScenario.twoWorkspaces
    (js "/ws/B.eww") WatcherScenario.tracking
  = (Normal tt, bump WatcherScenario.tracking).
Proof.
  split; [reflexivity|].
  destruct (@onFileModified_unchanged_file WatcherScenario.host
              WatcherScenario.undisturbed WatcherScenario.twoWorkspaces
              (js "/ws/B.eww") WatcherScenario.tracking
              (content WatcherScenario.trackedB) eq_refl) as [W _].
  exact (W WatcherScenario.trackedB eq_refl eq_refl).
Defined.

End MainMore.

(* ===================================================================== *)
(** * main.ts: loadTools *)
(* ===================================================================== *)

Module ToolsFacts.

Import Main Tools JsString JsStringFacts.

Ltac in_list :=
  repeat match goal with
         | H : In _ (_ :: _) |- _ => destruct H as [H|H]; [try discriminate H|]
         | H : In _ [] |- _ => destruct H
         end.

Ltac listed :=
  unfold not; intros; in_list;
  repeat match goal with
         | H : _ /\ _ |- _ => destruct H
         | H : exists _, _ |- _ => destruct H
         | H : ExecuteCommand _ = ExecuteCommand _ |- _ => injection H as ->
         | H : Some _ = Some _ |- _ => injection H as ->
         end;
  first [ solve [simpl; tauto]
        | solve [repeat split; congruence]
        | solve [eauto]
        | solve [eexists [_; _; _]; reflexivity] ].

(** X18: loadTools raises the loading flag first and then collects from
    the configured directories; it lowers the flag exactly when the
    collection succeeds, and ends with the failure of the collection
    otherwise.  The error message is shown exactly when no workbench
    was collected and a command was given, and the command is executed
    exactly when, in addition, the user picks the item Add IAR
    toolchain, as the last call, after the flag has been lowered. *)
Theorem loadTools_calls (env : Env) (addWorkbenchCommand : option jsstring) :
  let roots := installDirectories env in
  let completion := fst (loadTools env addWorkbenchCommand) in
  let calls := snd (loadTools env addWorkbenchCommand) in
  (exists rest,
      calls = WorkbenchesLoading true :: CollectWorkbenches roots :: rest /\
      ~ In (WorkbenchesLoading true) rest) /\
  (In (WorkbenchesLoading false) calls <-> completion = Normal tt) /\
  (completion = Normal tt <-> exists amount, collected env roots = inl amount) /\
  (forall e, completion = Throw e <-> collected env roots = inr e) /\
  (In ShowNoToolchainError calls <->
   collected env roots = inl 0%nat /\ addWorkbenchCommand <> None) /\
  (forall id,
      In (ExecuteCommand id) calls <->
      collected env roots = inl 0%nat /\ addWorkbenchCommand = Some id /\
      response env = Some addToolchain) /\
  (forall id,
      In (ExecuteCommand id) calls ->
      exists pre, calls = pre ++ [WorkbenchesLoading false; ExecuteCommand id]).
Proof.
  intros roots completion calls. subst roots completion calls.
  unfold loadTools.
  destruct (collected env (installDirectories env)) as [[|n]|e] eqn:C;
    destruct addWorkbenchCommand as [cmd|]; cbn [Nat.eqb];
    try destruct (response env) as [item|] eqn:R;
    try destruct (eqb_spec item addToolchain) as [->|Hne];
    cbn [fst snd app];
    (split; [eexists; split; [reflexivity | listed]|]);
    (split; [split; listed|]);
    (split; [split; listed|]);
    (split; [intros e'; split; listed|]);
    (split; [split; listed|]);
    (split; [intros id; split; listed | intros id; listed]).
Qed.

End ToolsFacts.
